(** * Lyra's neuromorphic memory manager (memoryManager.ts, memory.ts)

    A shallow embedding of the [MemoryManager] class and of the record types
    it works on, followed by the properties of its operations.

    Conventions of the embedding.
    - A JavaScript [number] used as a score is a value of a type [num] that
      comes with the operations of the interface [JSNumber].  The interface has
      two instances: [binary64], the IEEE-754 doubles the program runs on
      (Rocq's primitive floats, so every definition evaluates), and [exact],
      the rationals, in which the arithmetic laws the properties need are
      available.  Every operation of the class is written once, over the
      interface.
    - Counters and array positions ([usage_count], [limit], lengths) are
      integers; a point in time is its number of milliseconds since the epoch
      (what [Date.now()] returns and what [new Date(s).getTime()] gives back
      for the ISO string [s] of that instant).
    - The clock and the random identifier suffix are explicit arguments.
    - The private array [memories] is threaded through every method as the
      state of a small state monad.
    - Strings are sequences of 8-bit characters; [toLowerCase] acts on the
      letters A-Z.

    Properties of the structure of the store are proved for every instance of
    the number interface.  Properties that need arithmetic are proved on
    [exact]; those of [detectImportance], of [getMemoryStats] on the empty
    store, of the range of the scores and of the order of the ranking are
    also proved on [binary64], from the specification of the float
    operations. *)

From Stdlib Require Import ZArith QArith Qminmax Qabs List String Ascii Bool Lia Lqa.
From Stdlib Require Import Floats DecimalString Sorted Permutation.
From Stdlib Require DecimalZ DecimalPos.
Import ListNotations.

Local Open Scope string_scope.
Local Open Scope list_scope.
Local Open Scope Z_scope.

(** ** JavaScript numbers *)

Class JSNumber (num : Type) : Type := {
  lit : Q -> num;              (* a decimal literal of the source text *)
  ofZ : Z -> num;              (* an integer-valued number *)
  add : num -> num -> num;     (* a + b *)
  sub : num -> num -> num;     (* a - b *)
  mul : num -> num -> num;     (* a * b *)
  div : num -> num -> num;     (* a / b *)
  ltb : num -> num -> bool;    (* a < b *)
  truthy : num -> bool;        (* ToBoolean(a): false on 0 and on NaN *)
  Math_min : num -> num -> num;
  Math_max : num -> num -> num
}.

(** [a > b] is [b < a]. *)
Definition gtb {num} `{JSNumber num} (a b : num) : bool := ltb b a.

(** [a || b] on numbers. *)
Definition or_else {num} `{JSNumber num} (a b : num) : num :=
  if truthy a then a else b.

(** *** IEEE-754 doubles *)

Module Binary64.

Definition of_Z (z : Z) : float :=
  SF2Prim (binary_normalize prec emax z 0 false).

(** A literal denotes the double nearest to it; for a literal whose
    numerator and denominator are below 2^53 that is their correctly
    rounded quotient. *)
Definition of_lit (q : Q) : float :=
  PrimFloat.div (of_Z (Qnum q)) (of_Z (Zpos (Qden q))).

Definition is_neg_zero (a : float) : bool :=
  match PrimFloat.classify a with
  | NZero => true
  | _ => false
  end.

Definition to_bool (a : float) : bool :=
  negb (PrimFloat.is_nan a || PrimFloat.is_zero a).

(** [Math.min]: NaN when an argument is NaN, and -0 below +0. *)
Definition min (a b : float) : float :=
  if PrimFloat.is_nan a || PrimFloat.is_nan b then PrimFloat.nan
  else if PrimFloat.ltb a b then a
  else if PrimFloat.ltb b a then b
  else if is_neg_zero a then a else b.

(** [Math.max]: NaN when an argument is NaN, and +0 above -0. *)
Definition max (a b : float) : float :=
  if PrimFloat.is_nan a || PrimFloat.is_nan b then PrimFloat.nan
  else if PrimFloat.ltb a b then b
  else if PrimFloat.ltb b a then a
  else if is_neg_zero a then b else a.

(** The rational a finite double is. *)
Definition to_Q (a : float) : option Q :=
  match Prim2SF a with
  | S754_zero _ => Some 0%Q
  | S754_finite s m e =>
      Some ((if s then -1 else 1) * inject_Z (Zpos m) * Qpower 2 e)%Q
  | S754_infinity _ | S754_nan => None
  end.

End Binary64.

#[export] Instance binary64 : JSNumber float := {
  lit := Binary64.of_lit;
  ofZ := Binary64.of_Z;
  add := PrimFloat.add;
  sub := PrimFloat.sub;
  mul := PrimFloat.mul;
  div := PrimFloat.div;
  ltb := PrimFloat.ltb;
  truthy := Binary64.to_bool;
  Math_min := Binary64.min;
  Math_max := Binary64.max
}.

(** *** Exact arithmetic

    The rationals have no NaN and no rounding.  No property stated on this
    instance goes through a division by zero. *)

Module Exact.

Definition lt_bool (a b : Q) : bool := negb (Qle_bool b a).

Definition to_bool (a : Q) : bool := negb (Qeq_bool a 0).

End Exact.

#[export] Instance exact : JSNumber Q := {
  lit := fun q => q;
  ofZ := inject_Z;
  add := Qplus;
  sub := Qminus;
  mul := Qmult;
  div := Qdiv;
  ltb := Exact.lt_bool;
  truthy := Exact.to_bool;
  Math_min := Qmin;
  Math_max := Qmax
}.

(** ** Strings *)

Definition lower_ascii (c : ascii) : ascii :=
  let n := nat_of_ascii c in
  if (Nat.leb 65 n && Nat.leb n 90)%bool then ascii_of_nat (n + 32) else c.

(** [s.toLowerCase()] *)
Fixpoint toLowerCase (s : string) : string :=
  match s with
  | EmptyString => EmptyString
  | String c rest => String (lower_ascii c) (toLowerCase rest)
  end.

(** [s.includes(sub)]: [sub] occurs in [s] as a substring. *)
Fixpoint includes (s sub : string) : bool :=
  if String.prefix sub s then true
  else match s with
       | EmptyString => false
       | String _ rest => includes rest sub
       end.

(** ToBoolean of a string: only the empty string is falsy. *)
Definition nonempty (s : string) : bool :=
  match s with
  | EmptyString => false
  | String _ _ => true
  end.

(** ** Record types (memory.ts) *)

Inductive Emotion : Type :=
  | happy | sad | angry | neutral | excited | anxious | curious.

Inductive SourceType : Type :=
  | user_input | system_generated | tool_output | conversation.

Inductive WriteMethod : Type :=
  | manual | automatic | importance_detected.

(** The string each member of the union type is at run time. *)
Definition emotion_name (e : Emotion) : string :=
  match e with
  | happy => "happy"
  | sad => "sad"
  | angry => "angry"
  | neutral => "neutral"
  | excited => "excited"
  | anxious => "anxious"
  | curious => "curious"
  end.

Section Manager.

Context {num : Type} {N : JSNumber num}.

Record MemoryRecord : Type := mkMemory {
  id : string;
  user_id : string;
  title : string;
  content : string;
  embedding : option (list num);
  importance_score : num;
  emotion_flag : Emotion;
  date_created : Z;
  last_accessed : Z;
  usage_count : Z;
  decay_rate : num;
  context_tags : list string;
  source_type : SourceType;
  write_method : WriteMethod;
  dream_state : bool
}.

Record MemoryStats : Type := mkStats {
  total_memories : Z;
  active_memories : Z;
  decayed_memories : Z;
  average_importance : num;
  emotional_distribution : list (string * Z);
  recent_activity : Z
}.

Record MemoryQuery : Type := mkQuery {
  q_content : option string;
  q_emotion : option string;
  q_context_tags : option (list string);
  q_min_importance : option num;
  q_limit : option Z
}.

(** What [retrieveMemories] and [getAllMemories] hand out: a copy of the
    record (the spread [...memory]) with the derived field. *)
Record RankedMemory : Type := mkRanked {
  memory_of : MemoryRecord;
  current_importance : num
}.

(** *** Scoring *)

Definition calculateImportance
    (emotionalWeight usageFrequency recency crossConnections : num) : num :=
  Math_min (lit 1)
    (add (add (add (mul emotionalWeight (lit 0.3))
                   (mul usageFrequency (lit 0.2)))
              (mul recency (lit 0.2)))
         (mul crossConnections (lit 0.3))).

Definition emotionalWeights : list (string * num) :=
  [ ("happy", lit 0.7); ("excited", lit 0.8); ("anxious", lit 0.9);
    ("angry", lit 0.85); ("sad", lit 0.75); ("curious", lit 0.6);
    ("neutral", lit 0.3) ].

Fixpoint lookup (key : string) (table : list (string * num)) : option num :=
  match table with
  | [] => None
  | (k, v) :: rest => if String.eqb k key then Some v else lookup key rest
  end.

(** [emotionalWeights[emotion] || 0.3] *)
Definition getEmotionalWeight (emotion : string) : num :=
  match lookup emotion emotionalWeights with
  | Some w => or_else w (lit 0.3)
  | None => lit 0.3
  end.

(** Lines 28-33 of [calculateDecay]: the decayed score of a record whose
    last access is [daysSinceAccess] days old. *)
Definition decayedScore (memory : MemoryRecord) (daysSinceAccess : num) : num :=
  let baseDamping := lit 0.05 in
  let usageProtection :=
    Math_min (lit 0.8) (mul (ofZ (usage_count memory)) (lit 0.1)) in
  let emotionalProtection :=
    mul (getEmotionalWeight (emotion_name (emotion_flag memory))) (lit 0.2) in
  let effectiveDecay :=
    mul baseDamping (sub (sub (lit 1) usageProtection) emotionalProtection) in
  Math_max (lit 0)
    (sub (importance_score memory) (mul effectiveDecay daysSinceAccess)).

Definition msPerDay : Z := 1000 * 60 * 60 * 24.

Definition calculateDecay (now : Z) (memory : MemoryRecord) : num :=
  let timeSinceAccess := now - last_accessed memory in
  let daysSinceAccess := div (ofZ timeSinceAccess) (ofZ msPerDay) in
  decayedScore memory daysSinceAccess.

Definition importanceKeywords : list string :=
  [ "important"; "critical"; "urgent"; "remember"; "never forget";
    "warning"; "danger"; "emergency"; "secret"; "password"; "key" ].

Definition emotionalKeywords : list string :=
  [ "love"; "hate"; "fear"; "joy"; "anger"; "excited"; "worried" ].

(** One [forEach] pass over a keyword list, adding [bonus] to the running
    score for every keyword the lower-cased content includes. *)
Definition addKeywordBonus (content : string) (bonus : num)
    (keywords : list string) (score : num) : num :=
  fold_left
    (fun score keyword =>
       if includes (toLowerCase content) keyword then add score bonus
       else score)
    keywords score.

Definition detectImportance (content : string) : num :=
  let score := lit 0.3 in
  let score := addKeywordBonus content (lit 0.2) importanceKeywords score in
  let score := addKeywordBonus content (lit 0.15) emotionalKeywords score in
  let score :=
    if Nat.ltb 200 (String.length content) then add score (lit 0.1)
    else score in
  let score :=
    if Nat.ltb 500 (String.length content) then add score (lit 0.1)
    else score in
  Math_min (lit 1) score.

(** *** Array helpers *)

(** [Array.prototype.sort(compare)] is stable; for a comparator that orders
    its arguments consistently every stable sort yields the same array.  It
    is modelled by the stable insertion sort in which [after x y] reads
    "[compare(x, y) > 0]", that is, [x] has to come after [y]. *)
Fixpoint insert_sorted {A : Type} (after : A -> A -> bool) (x : A)
    (l : list A) : list A :=
  match l with
  | [] => [x]
  | y :: rest =>
      if after x y then y :: insert_sorted after x rest else x :: y :: rest
  end.

Fixpoint sort_by {A : Type} (after : A -> A -> bool) (l : list A) : list A :=
  match l with
  | [] => []
  | x :: rest => insert_sorted after x (sort_by after rest)
  end.

(** [l.slice(0, end)] for an integer [end]: a negative [end] counts from
    the end of the array. *)
Definition slice0 {A : Type} (l : list A) (stop : Z) : list A :=
  if stop <? 0 then firstn (Z.to_nat (Z.max (Z.of_nat (List.length l) + stop) 0)) l
  else firstn (Z.to_nat stop) l.

(** [tags.some(tag => l.includes(tag))] *)
Definition some_included (tags l : list string) : bool :=
  existsb (fun tag => existsb (String.eqb tag) l) tags.

(** *** Tag extraction *)

Definition is_word_char (c : ascii) : bool :=
  let n := nat_of_ascii c in
  ((Nat.leb 48 n && Nat.leb n 57) || (Nat.leb 65 n && Nat.leb n 90)
   || (Nat.leb 97 n && Nat.leb n 122) || Nat.eqb n 95)%bool.

(** The matches of [/\b\w+\b/g]: the maximal runs of word characters.
    [cur] is the run being read. *)
Fixpoint word_runs (s : string) (cur : string) : list string :=
  match s with
  | EmptyString => if nonempty cur then [cur] else []
  | String c rest =>
      if is_word_char c then word_runs rest (String.append cur (String c EmptyString))
      else if nonempty cur then cur :: word_runs rest EmptyString
      else word_runs rest EmptyString
  end.

Definition commonWords : list string :=
  [ "the"; "and"; "or"; "but"; "in"; "on"; "at"; "to"; "for"; "of"; "with";
    "by"; "is"; "are"; "was"; "were"; "be"; "been"; "have"; "has"; "had";
    "do"; "does"; "did"; "will"; "would"; "could"; "should"; "may"; "might";
    "can"; "a"; "an" ].

(** [acc[word] = (acc[word] || 0) + 1] on an object whose own keys are kept
    in insertion order.  (Words that name a member of [Object.prototype],
    such as "constructor", are outside this model.) *)
Fixpoint bump (word : string) (acc : list (string * Z)) : list (string * Z) :=
  match acc with
  | [] => [(word, 1)]
  | (k, n) :: rest =>
      if String.eqb k word then (k, n + 1) :: rest
      else (k, n) :: bump word rest
  end.

Definition digit_value (c : ascii) : option Z :=
  let n := nat_of_ascii c in
  if (Nat.leb 48 n && Nat.leb n 57)%bool then Some (Z.of_nat n - 48) else None.

Fixpoint decimal_value (s : string) (acc : Z) : option Z :=
  match s with
  | EmptyString => Some acc
  | String c rest =>
      match digit_value c with
      | Some d => decimal_value rest (10 * acc + d)
      | None => None
      end
  end.

(** The array index a property key denotes, if it is one: a canonical
    decimal numeral below 2^32 - 1. *)
Definition array_index (key : string) : option Z :=
  match key with
  | EmptyString => None
  | String c rest =>
      if (Ascii.eqb c "0" && nonempty rest)%bool then None
      else match decimal_value key 0 with
           | Some v => if v <? 4294967295 then Some v else None
           | None => None
           end
  end.

Definition index_or_zero (key : string) : Z :=
  match array_index key with
  | Some v => v
  | None => 0
  end.

Definition is_index (key : string) : bool :=
  match array_index key with
  | Some _ => true
  | None => false
  end.

(** [Object.entries(o)]: the array-index keys in ascending order, then the
    other keys in insertion order. *)
Definition Object_entries (o : list (string * Z)) : list (string * Z) :=
  sort_by (fun a b => index_or_zero (fst b) <? index_or_zero (fst a))
          (filter (fun e => is_index (fst e)) o)
  ++ filter (fun e => negb (is_index (fst e))) o.

Definition extractContextTags (content : string) : list string :=
  let words := word_runs (toLowerCase content) EmptyString in
  let tags :=
    fold_left (fun acc word => bump word acc)
      (filter
         (fun word =>
            (Nat.ltb 3 (String.length word)
             && negb (existsb (String.eqb word) commonWords))%bool)
         words)
      [] in
  map fst
    (slice0 (sort_by (fun a b => 0 <? snd b - snd a) (Object_entries tags)) 5).

(** *** The store *)

(** A method of the class: a computation on the private array [memories]. *)
Definition Manager (A : Type) : Type :=
  list MemoryRecord -> A * list MemoryRecord.

Definition ret {A : Type} (a : A) : Manager A := fun memories => (a, memories).

Definition bind {A B : Type} (m : Manager A) (k : A -> Manager B) : Manager B :=
  fun memories => let (a, memories') := m memories in k a memories'.

(** Reading [this.memories]. *)
Definition read : Manager (list MemoryRecord) :=
  fun memories => (memories, memories).

(** [this.memories.push(memory)] *)
Definition push (memory : MemoryRecord) : Manager unit :=
  fun memories => (tt, memories ++ [memory]).

(** [this.memories.forEach(f)] for an [f] that updates the record it visits. *)
Definition forEach (f : MemoryRecord -> MemoryRecord) : Manager unit :=
  fun memories => (tt, map f memories).

(** [this.memories.find(p)] followed by updates through the reference that
    was found: the first record satisfying [p] is replaced by [f] of it, in
    place, and is the result. *)
Fixpoint update_first (p : MemoryRecord -> bool)
    (f : MemoryRecord -> MemoryRecord) (memories : list MemoryRecord)
    : option (MemoryRecord * list MemoryRecord) :=
  match memories with
  | [] => None
  | m :: rest =>
      if p m then Some (f m, f m :: rest)
      else match update_first p f rest with
           | Some (found, rest') => Some (found, m :: rest')
           | None => None
           end
  end.

Definition find_and_update (p : MemoryRecord -> bool)
    (f : MemoryRecord -> MemoryRecord) : Manager (option MemoryRecord) :=
  fun memories =>
    match update_first p f memories with
    | Some (found, memories') => (Some found, memories')
    | None => (None, memories)
    end.

Local Notation "x <- m ;; k" := (bind m (fun x => k))
  (at level 61, m at next level, right associativity).

(** *** Methods of [MemoryManager] *)

Definition currentUserId : string := "lyra-user-001".

(** A parameter with a default value. *)
Definition or_default {A : Type} (d : A) (arg : option A) : A :=
  match arg with
  | Some a => a
  | None => d
  end.

Definition decimal (z : Z) : string := NilZero.string_of_int (Z.to_int z).

(** [createMemory]; [rnd] stands for
    [Math.random().toString(36).substr(2, 9)]. *)
Definition createMemory (now : Z) (rnd : string) (title content : string)
    (emotion : option Emotion) (sourceType : option SourceType)
    (writeMethod : option WriteMethod) : Manager MemoryRecord :=
  let importance := detectImportance content in
  let contextTags := extractContextTags content in
  let memory :=
    {| id := String.append "mem_"
               (String.append (decimal now) (String.append "_" rnd));
       user_id := currentUserId;
       title := title;
       content := content;
       embedding := None;
       importance_score := importance;
       emotion_flag := or_default neutral emotion;
       date_created := now;
       last_accessed := now;
       usage_count := 1;
       decay_rate := lit 0.05;
       context_tags := contextTags;
       source_type := or_default user_input sourceType;
       write_method := or_default manual writeMethod;
       dream_state := false |} in
  _ <- push memory ;;
  ret memory.

(** The predicate of the [filter] call in [retrieveMemories]. *)
Definition passes (query : MemoryQuery) (memory : RankedMemory) : bool :=
  let m := memory_of memory in
  if match q_min_importance query with
     | Some min_importance =>
         truthy min_importance
         && ltb (current_importance memory) min_importance
     | None => false
     end
  then false
  else if match q_emotion query with
          | Some emotion =>
              nonempty emotion
              && negb (String.eqb (emotion_name (emotion_flag m)) emotion)
          | None => false
          end
  then false
  else if match q_content query with
          | Some text =>
              nonempty text
              && negb (includes (toLowerCase (content m)) (toLowerCase text))
          | None => false
          end
  then false
  else if match q_context_tags query with
          | Some tags => negb (some_included tags (context_tags m))
          | None => false
          end
  then false
  else true.

(** [(a, b) => b.current_importance - a.current_importance] is positive. *)
Definition less_important (a b : RankedMemory) : bool :=
  gtb (sub (current_importance b) (current_importance a)) (lit 0).

(** [query.limit || 10] *)
Definition limit_or_10 (query : MemoryQuery) : Z :=
  match q_limit query with
  | Some n => if n =? 0 then 10 else n
  | None => 10
  end.

Definition with_current_importance (now : Z) (memory : MemoryRecord)
    : RankedMemory :=
  {| memory_of := memory; current_importance := calculateDecay now memory |}.

(** The chain of [retrieveMemories] up to the final [slice]. *)
Definition ranked (now : Z) (query : MemoryQuery)
    (memories : list MemoryRecord) : list RankedMemory :=
  sort_by less_important
    (filter (passes query) (map (with_current_importance now) memories)).

Definition retrieveMemories (now : Z) (query : MemoryQuery)
    : Manager (list RankedMemory) :=
  memories <- read ;;
  ret (slice0 (ranked now query memories) (limit_or_10 query)).

(** The three assignments of [accessMemory]. *)
Definition strengthen (now : Z) (memory : MemoryRecord) : MemoryRecord :=
  {| id := id memory;
     user_id := user_id memory;
     title := title memory;
     content := content memory;
     embedding := embedding memory;
     importance_score :=
       Math_min (lit 1) (add (importance_score memory) (lit 0.05));
     emotion_flag := emotion_flag memory;
     date_created := date_created memory;
     last_accessed := now;
     usage_count := usage_count memory + 1;
     decay_rate := decay_rate memory;
     context_tags := context_tags memory;
     source_type := source_type memory;
     write_method := write_method memory;
     dream_state := dream_state memory |}.

(** [accessMemory]; the result [None] is the [null] of the source. *)
Definition accessMemory (now : Z) (memoryId : string)
    : Manager (option MemoryRecord) :=
  find_and_update (fun m => String.eqb (id m) memoryId) (strengthen now).

Definition getMemoryStats (now : Z) : Manager MemoryStats :=
  memories <- read ;;
  let activeMemories :=
    filter (fun m => gtb (calculateDecay now m) (lit 0.1)) memories in
  let emotionalDist :=
    fold_left (fun acc m => bump (emotion_name (emotion_flag m)) acc)
      memories [] in
  let count := Z.of_nat (List.length memories) in
  ret {| total_memories := count;
         active_memories := Z.of_nat (List.length activeMemories);
         decayed_memories := count - Z.of_nat (List.length activeMemories);
         average_importance :=
           or_else
             (div (fold_left (fun sum m => add sum (calculateDecay now m))
                     memories (lit 0))
                  (ofZ count))
             (lit 0);
         emotional_distribution := emotionalDist;
         recent_activity :=
           Z.of_nat
             (List.length
                (filter
                   (fun m => now - last_accessed m <? 24 * 60 * 60 * 1000)
                   memories)) |}.

(** First pass of [dreamStateProcessing]. *)
Definition reinforce (memory : MemoryRecord) : MemoryRecord :=
  if 3 <? usage_count memory then
    {| id := id memory;
       user_id := user_id memory;
       title := title memory;
       content := content memory;
       embedding := embedding memory;
       importance_score :=
         Math_min (lit 1) (add (importance_score memory) (lit 0.02));
       emotion_flag := emotion_flag memory;
       date_created := date_created memory;
       last_accessed := last_accessed memory;
       usage_count := usage_count memory;
       decay_rate := decay_rate memory;
       context_tags := context_tags memory;
       source_type := source_type memory;
       write_method := write_method memory;
       dream_state := dream_state memory |}
  else memory.

(** Second pass of [dreamStateProcessing]. *)
Definition mark_processed (memory : MemoryRecord) : MemoryRecord :=
  {| id := id memory;
     user_id := user_id memory;
     title := title memory;
     content := content memory;
     embedding := embedding memory;
     importance_score := importance_score memory;
     emotion_flag := emotion_flag memory;
     date_created := date_created memory;
     last_accessed := last_accessed memory;
     usage_count := usage_count memory;
     decay_rate := decay_rate memory;
     context_tags := context_tags memory;
     source_type := source_type memory;
     write_method := write_method memory;
     dream_state := true |}.

Definition dreamStateProcessing : Manager unit :=
  _ <- forEach reinforce ;;
  forEach mark_processed.

Definition getAllMemories (now : Z) : Manager (list RankedMemory) :=
  memories <- read ;;
  ret (map (with_current_importance now) memories).

End Manager.

Arguments MemoryRecord num : clear implicits.
Arguments MemoryStats num : clear implicits.
Arguments MemoryQuery num : clear implicits.
Arguments RankedMemory num : clear implicits.
Arguments Manager num A : clear implicits.

(** * Vocabulary of the properties *)

Section Vocabulary.

Context {num : Type} {N : JSNumber num}.

(** The test of the [find] call in [accessMemory]. *)
Definition has_id (memoryId : string) (m : MemoryRecord num) : bool :=
  String.eqb (id m) memoryId.

(** The fields a consolidation pass has no assignment to. *)
Definition same_outside_score_and_flag (m m' : MemoryRecord num) : Prop :=
  id m' = id m
  /\ user_id m' = user_id m
  /\ title m' = title m
  /\ content m' = content m
  /\ embedding m' = embedding m
  /\ emotion_flag m' = emotion_flag m
  /\ date_created m' = date_created m
  /\ last_accessed m' = last_accessed m
  /\ usage_count m' = usage_count m
  /\ decay_rate m' = decay_rate m
  /\ context_tags m' = context_tags m
  /\ source_type m' = source_type m
  /\ write_method m' = write_method m.

(** What a consolidation pass does to the other two fields. *)
Definition consolidated (m m' : MemoryRecord num) : Prop :=
  dream_state m' = true
  /\ importance_score m'
     = if 3 <? usage_count m
       then Math_min (lit 1) (add (importance_score m) (lit 0.02))
       else importance_score m.

(** The query with a limit and no filter. *)
Definition unfiltered (limit : Z) : MemoryQuery num :=
  mkQuery None None None None (Some limit).

(** [n] additions of [bonus], one after the other. *)
Definition add_times (n : nat) (bonus score : num) : num :=
  Nat.iter n (fun s : num => add s bonus) score.

(** The score of a content in which [k] importance keywords and [e]
    emotional keywords occur, [long] and [very_long] telling whether its
    length exceeds 200 and 500: the additions of [detectImportance] in the
    order it makes them. *)
Definition score_of_counts (k e : nat) (long very_long : bool) : num :=
  let score := add_times e (lit 0.15) (add_times k (lit 0.2) (lit 0.3)) in
  let score := if long then add score (lit 0.1) else score in
  let score := if very_long then add score (lit 0.1) else score in
  Math_min (lit 1) score.

(** One call of a method that uses the store, as a change of the store. *)
Inductive call : list (MemoryRecord num) -> list (MemoryRecord num) -> Prop :=
  | call_createMemory now rnd title' content' emotion sourceType writeMethod
      memories :
      call memories
        (snd (createMemory now rnd title' content' emotion sourceType
                writeMethod memories))
  | call_retrieveMemories now query memories :
      call memories (snd (retrieveMemories now query memories))
  | call_accessMemory now memoryId memories :
      call memories (snd (accessMemory now memoryId memories))
  | call_getMemoryStats now memories :
      call memories (snd (getMemoryStats now memories))
  | call_dreamStateProcessing memories :
      call memories (snd (dreamStateProcessing memories))
  | call_getAllMemories now memories :
      call memories (snd (getAllMemories now memories)).

(** The stores a manager can be in: it starts empty. *)
Inductive reachable : list (MemoryRecord num) -> Prop :=
  | reachable_new : reachable []
  | reachable_call memories memories' :
      reachable memories -> call memories memories' -> reachable memories'.

End Vocabulary.

(** How many keywords of a list occur in the content, case-insensitively, as
    substrings.  A keyword counts once, however often it occurs. *)
Definition matches (content : string) (keywords : list string) : nat :=
  List.length (filter (includes (toLowerCase content)) keywords).

(** The specification's formula: a base of 0.3, 0.2 for each of the [k]
    importance keywords, 0.15 for each of the [e] emotional keywords, 0.1 for
    each length bonus, clamped to 1. *)
Definition formula_of_counts (k e : nat) (long very_long : bool) : Q :=
  Qmin 1
    (0.3
     + 0.2 * inject_Z (Z.of_nat k)
     + 0.15 * inject_Z (Z.of_nat e)
     + (if long then 0.1 else 0)
     + (if very_long then 0.1 else 0)).

(** The score as the specification words it. *)
Definition detectImportance_spec (content : string) : Q :=
  formula_of_counts (matches content importanceKeywords)
    (matches content emotionalKeywords)
    (Nat.ltb 200 (String.length content))
    (Nat.ltb 500 (String.length content)).

(** The double is a finite number within 2^-53 of the formula's value. *)
Definition rounds_formula (k e : nat) (long very_long : bool) : bool :=
  match Binary64.to_Q (score_of_counts (N := binary64) k e long very_long) with
  | Some q =>
      Qle_bool (Qabs (q - formula_of_counts k e long very_long))
               (Qpower 2 (-53))
  | None => false
  end.

(** At least as important, in exact arithmetic: the order of the result. *)
Definition non_increasing (a b : RankedMemory Q) : Prop :=
  (current_importance b <= current_importance a)%Q.

(** At least as important, on doubles. *)
Definition non_increasing_binary64 (a b : RankedMemory float) : Prop :=
  PrimFloat.leb (current_importance b) (current_importance a) = true.

(** The effective importance is a number, not NaN. *)
Definition is_number (r : RankedMemory float) : Prop :=
  PrimFloat.is_nan (current_importance r) = false.

(** The invariant of a record, in exact arithmetic. *)
Definition well_scored (m : MemoryRecord Q) : Prop :=
  (0 <= importance_score m <= 1)%Q /\ 1 <= usage_count m.

(** A double that is zero, positive or plus infinity; in particular not NaN. *)
Definition nonneg (x : spec_float) : Prop :=
  match x with
  | S754_zero _ => True
  | S754_finite s _ _ => s = false
  | S754_infinity s => s = false
  | S754_nan => False
  end.

(** A double above zero. *)
Definition positive_sf (x : spec_float) : Prop :=
  match x with
  | S754_finite s _ _ => s = false
  | S754_infinity s => s = false
  | _ => False
  end.

(** The double 1. *)
Definition SF_one : spec_float := S754_finite false 4503599627370496 (-52).

(** A double between 0 and 1; NaN is not. *)
Definition unit_interval (x : float) : Prop :=
  PrimFloat.leb 0 x = true /\ PrimFloat.leb x 1 = true.

Definition in_unit_interval (x : float) : bool :=
  PrimFloat.leb 0 x && PrimFloat.leb x 1.

(** The invariant of a record, on doubles. *)
Definition well_scored_binary64 (m : MemoryRecord float) : Prop :=
  unit_interval (importance_score m) /\ 1 <= usage_count m.

(** [ok] is an invariant at the store [memories]: it holds of every record,
    still does after any call, and holds of the record [createMemory] makes
    and of the record [accessMemory] returns. *)
Definition invariant_at {num : Type} {N : JSNumber num}
    (ok : MemoryRecord num -> Prop) (memories : list (MemoryRecord num)) : Prop :=
  Forall ok memories
  /\ (forall memories', call memories memories' -> Forall ok memories')
  /\ (forall now rnd title' content' emotion sourceType writeMethod,
        ok (fst (createMemory now rnd title' content' emotion sourceType
                   writeMethod memories)))
  /\ (forall now memoryId r,
        fst (accessMemory now memoryId memories) = Some r -> ok r).

(** ** Sample data *)

Definition scenario : string := "This is urgent, remember the password!".

(** The record [createMemory] builds for the scenario content, one it builds
    for an empty title and an empty content, and a store holding both. *)
Definition scenario_record {num : Type} {N : JSNumber num} : MemoryRecord num :=
  fst (createMemory 1700000000000 "k3j9x0q2a" "door code" scenario
         (Some anxious) None None []).

Definition blank_record {num : Type} {N : JSNumber num} : MemoryRecord num :=
  fst (createMemory 1700000000001 "p0o9i8u7y" "" "" None None None []).

Definition sample_store {num : Type} {N : JSNumber num} : list (MemoryRecord num) :=
  [scenario_record; blank_record].

Definition scenario_id : string := "mem_1700000000000_k3j9x0q2a".

(** The record of the specification's decay scenario: a score of 0.8, one
    use, a neutral emotion, last accessed at time 0. *)
Definition decay_scenario_record {num : Type} {N : JSNumber num}
    : MemoryRecord num :=
  mkMemory "mem_0_a" currentUserId "note" "text" None (lit 0.8) neutral 0 0 1
    (lit 0.05) [] user_input manual false.

(** A record that has been used five times, with a score of 0.5. *)
Definition used_record {num : Type} {N : JSNumber num} : MemoryRecord num :=
  mkMemory "mem_0_c" currentUserId "note" "text" None (lit 0.5) neutral 0 0 5
    (lit 0.05) [] user_input manual false.

(** A record with the strongest protection the tables allow: many uses and
    the emotion of the highest weight. *)
Definition protected_record {num : Type} {N : JSNumber num}
    : MemoryRecord num :=
  mkMemory "mem_0_b" currentUserId "note" "text" None (lit 0.8) anxious 0 0 50
    (lit 0.05) [] user_input manual false.

(** ** Vocabulary of the further properties *)

Section FurtherVocabulary.

Context {num : Type} {N : JSNumber num}.

(** What the four filters of a query ask of an entry. *)
Definition meets (query : MemoryQuery num) (r : RankedMemory num) : Prop :=
  (forall min_importance,
      q_min_importance query = Some min_importance ->
      truthy min_importance = true ->
      ltb (current_importance r) min_importance = false)
  /\ (forall emotion,
        q_emotion query = Some emotion -> emotion <> "" ->
        emotion_name (emotion_flag (memory_of r)) = emotion)
  /\ (forall text,
        q_content query = Some text -> text <> "" ->
        includes (toLowerCase (content (memory_of r))) (toLowerCase text) = true)
  /\ (forall tags,
        q_context_tags query = Some tags ->
        exists tag, In tag tags /\ In tag (context_tags (memory_of r))).

(** The fields [accessMemory] has no assignment to. *)
Definition same_outside_access (m m' : MemoryRecord num) : Prop :=
  id m' = id m
  /\ user_id m' = user_id m
  /\ title m' = title m
  /\ content m' = content m
  /\ embedding m' = embedding m
  /\ emotion_flag m' = emotion_flag m
  /\ date_created m' = date_created m
  /\ decay_rate m' = decay_rate m
  /\ context_tags m' = context_tags m
  /\ source_type m' = source_type m
  /\ write_method m' = write_method m
  /\ dream_state m' = dream_state m.

End FurtherVocabulary.

(** No underscore occurs in a decimal numeral. *)
Definition underscore_free (s : string) : Prop :=
  ~ In "_"%char (list_ascii_of_string s).

(** [o[key] || 0] on an object of counters. *)
Fixpoint count_at (key : string) (o : list (string * Z)) : Z :=
  match o with
  | [] => 0
  | (k, n) :: rest => if String.eqb k key then n else count_at key rest
  end.

(** The counters after a [reduce] that bumps one word after the other. *)
Definition tally (words : list string) (o : list (string * Z)) : list (string * Z) :=
  fold_left (fun acc word => bump word acc) words o.

(** The words [extractContextTags] counts: the word runs of the lower-cased
    content that are longer than 3 characters and not common words. *)
Definition kept_words (content : string) : list string :=
  filter
    (fun word =>
       (Nat.ltb 3 (String.length word)
        && negb (existsb (String.eqb word) commonWords))%bool)
    (word_runs (toLowerCase content) EmptyString).

(** How often a word is among the kept words. *)
Definition frequency (content : string) (word : string) : Z :=
  Z.of_nat (count_occ string_dec (kept_words content) word).

(** The members of [Object.prototype].  On an object literal the lookup of
    one of these keys finds the inherited member instead of [undefined]. *)
Definition Object_prototype_keys : list string :=
  [ "constructor"; "hasOwnProperty"; "isPrototypeOf"; "propertyIsEnumerable";
    "toLocaleString"; "toString"; "valueOf"; "__proto__"; "__defineGetter__";
    "__defineSetter__"; "__lookupGetter__"; "__lookupSetter__" ].

Definition inherited (key : string) : bool :=
  existsb (String.eqb key) Object_prototype_keys.

(** A content none of whose counted words names an inherited member, so
    that [acc[word] || 0] reads a counter of [acc] or 0. *)
Definition plain_words (content : string) : Prop :=
  forallb (fun word => negb (inherited word)) (kept_words content) = true.

(** The records of a store that carry the emotion named [name]. *)
Definition with_emotion {num : Type} (name : string)
    (memories : list (MemoryRecord num)) : list (MemoryRecord num) :=
  filter (fun m => String.eqb (emotion_name (emotion_flag m)) name) memories.

(** The sum of the counters of an object. *)
Definition total_count (o : list (string * Z)) : Z :=
  fold_right (fun e sum => snd e + sum) 0 o.

(** What holds of a record from its creation on. *)
Definition as_created {num : Type} {N : JSNumber num} (m : MemoryRecord num)
    : Prop :=
  user_id m = currentUserId
  /\ embedding m = None
  /\ decay_rate m = lit 0.05
  /\ context_tags m = extractContextTags (content m)
  /\ String.prefix "mem_" (id m) = true
  /\ 1 <= usage_count m
  /\ (usage_count m = 1 -> last_accessed m = date_created m).


(** A content with four importance keywords, and one with more than five
    words that count as tags. *)
Definition saturated : string := "Urgent warning: critical danger ahead".

Definition inventory : string :=
  "Garage shelf: hammer, pliers, wrench, hammer, chisel, mallet, spanner and hammer".

(** * Properties *)

(** ** The operations on concrete inputs *)

(** The literals of the source, as doubles. *)
Example literals_binary64 :
  map (lit (JSNumber := binary64))
    [0.3; 0.2; 0.15; 0.1; 0.05; 0.02; 0.8; 0.7; 0.9; 0.85; 0.75; 0.6; 1; 0]%Q
  = [0x1.3333333333333p-2; 0x1.999999999999ap-3; 0x1.3333333333333p-3;
     0x1.999999999999ap-4; 0x1.999999999999ap-5; 0x1.47ae147ae147bp-6;
     0x1.999999999999ap-1; 0x1.6666666666666p-1; 0x1.ccccccccccccdp-1;
     0x1.b333333333333p-1; 0x1.8p-1; 0x1.3333333333333p-1; 0x1p+0;
     0x0p+0]%float.
Proof. vm_compute. reflexivity. Qed.

Example decay_after_ten_days_exact :
  (calculateDecay (N := exact) (10 * msPerDay) decay_scenario_record == 0.38)%Q.
Proof. vm_compute. reflexivity. Qed.

Example decay_after_ten_days_binary64 :
  calculateDecay (N := binary64) (10 * msPerDay) decay_scenario_record
  = 0x1.851eb851eb851p-2%float.
Proof. vm_compute. reflexivity. Qed.

Example decay_of_protected_record_exact :
  (calculateDecay (N := exact) (10 * msPerDay) protected_record == 0.79)%Q.
Proof. vm_compute. reflexivity. Qed.

Example decay_of_protected_record_binary64 :
  calculateDecay (N := binary64) (10 * msPerDay) protected_record
  = 0x1.947ae147ae148p-1%float.
Proof. vm_compute. reflexivity. Qed.

Example emotional_weights :
  map (fun e => getEmotionalWeight (N := exact) (emotion_name e))
    [happy; sad; angry; neutral; excited; anxious; curious]
  = [0.7; 0.75; 0.85; 0.3; 0.8; 0.9; 0.6]%Q
  /\ getEmotionalWeight (N := exact) "rage" = 0.3%Q.
Proof. split; reflexivity. Qed.

Example tags_of_scenario :
  extractContextTags scenario = ["this"; "urgent"; "remember"; "password"].
Proof. vm_compute. reflexivity. Qed.

Example tags_by_frequency :
  extractContextTags "zebra 2024 1999 Zebra the password password_x PASSWORD"
  = ["zebra"; "password"; "1999"; "2024"; "password_x"].
Proof. vm_compute. reflexivity. Qed.

Example ranking_of_sample_store :
  map (fun r => id (memory_of r))
    (fst (retrieveMemories (N := binary64) 1700000500000 (unfiltered 10)
            sample_store))
  = [scenario_id; "mem_1700000000001_p0o9i8u7y"].
Proof. vm_compute. reflexivity. Qed.

Example stats_of_sample_store :
  total_memories (fst (getMemoryStats (N := binary64) 1700000500000
                            sample_store)) = 2
  /\ emotional_distribution
       (fst (getMemoryStats (N := binary64) 1700000500000 sample_store))
     = [("anxious", 1); ("neutral", 1)]
  /\ recent_activity
       (fst (getMemoryStats (N := binary64) 1700000500000 sample_store)) = 2.
Proof. repeat split; vm_compute; reflexivity. Qed.

(** ** Lookup by identifier *)

Section Access.

Context {num : Type} {N : JSNumber num}.

Lemma update_first_absent (p : MemoryRecord num -> bool) f memories :
  Forall (fun m => p m = false) memories ->
  update_first p f memories = None.
Proof.
  induction 1 as [|m rest Hm _ IH]; simpl.
  - reflexivity.
  - now rewrite Hm, IH.
Qed.

Lemma update_first_present (p : MemoryRecord num -> bool) f pre m post :
  Forall (fun x => p x = false) pre ->
  p m = true ->
  update_first p f (pre ++ m :: post) = Some (f m, pre ++ f m :: post).
Proof.
  induction 1 as [|x pre Hx _ IH]; simpl; intros Hm.
  - now rewrite Hm.
  - now rewrite Hx, IH.
Qed.

Lemma absent_ids memoryId (memories : list (MemoryRecord num)) :
  ~ In memoryId (map id memories) ->
  Forall (fun m => has_id memoryId m = false) memories.
Proof.
  induction memories as [|m rest IH]; simpl; intros Hnot; constructor.
  - unfold has_id. apply String.eqb_neq. tauto.
  - apply IH. tauto.
Qed.

End Access.

(** ** accessMemory *)

(** C6.  When no record of the store has the identifier, [accessMemory]
    returns [null] (the absent case of its result type [MemoryRecord | null]),
    and the store is left exactly as it was. *)
Theorem accessMemory_unknown_id {num : Type} {N : JSNumber num}
    (now : Z) (memoryId : string) (memories : list (MemoryRecord num)) :
  ~ In memoryId (map id memories) ->
  accessMemory now memoryId memories = (None, memories).
Proof.
  intros Habsent. unfold accessMemory, find_and_update.
  change (fun x : MemoryRecord num => String.eqb (id x) memoryId)
    with (@has_id num memoryId).
  rewrite (update_first_absent _ _ _ (absent_ids _ _ Habsent)).
  reflexivity.
Qed.

Lemma accessMemory_unknown_id_witness :
  accessMemory (N := binary64) 1700000500000 "mem_0_missing" sample_store
  = (None, sample_store).
Proof.
  apply accessMemory_unknown_id.
  simpl. intros [H | [H | []]]; discriminate H.
Defined.

Section Strengthening.

Context {num : Type} {N : JSNumber num}.

(** A store that holds the identifier splits at the first record carrying it. *)
Lemma first_with_id memoryId (memories : list (MemoryRecord num)) :
  In memoryId (map id memories) ->
  exists pre m post,
    memories = pre ++ m :: post
    /\ ~ In memoryId (map id pre)
    /\ id m = memoryId.
Proof.
  induction memories as [|x rest IH]; simpl; intros Hin.
  - contradiction.
  - destruct (String.eqb_spec (id x) memoryId) as [Heq | Hneq].
    + exists [], x, rest. simpl. tauto.
    + destruct Hin as [Hx | Hrest]; [contradiction|].
      destruct (IH Hrest) as [pre [m [post [-> [Hpre Hm]]]]].
      exists (x :: pre), m, post. simpl. repeat split; tauto.
Qed.

Lemma accessMemory_first now memoryId (pre post : list (MemoryRecord num)) m :
  ~ In memoryId (map id pre) ->
  id m = memoryId ->
  accessMemory now memoryId (pre ++ m :: post)
  = (Some (strengthen now m), pre ++ strengthen now m :: post).
Proof.
  intros Hpre Hm. unfold accessMemory, find_and_update.
  change (fun x : MemoryRecord num => String.eqb (id x) memoryId)
    with (@has_id num memoryId).
  rewrite update_first_present.
  - reflexivity.
  - now apply absent_ids.
  - unfold has_id. now apply String.eqb_eq.
Qed.

End Strengthening.

(** C4.  When the store holds a record with the identifier, [accessMemory]
    updates the first such record in place and returns it: its [usage_count]
    is one more, its [last_accessed] is the time of the call, its
    [importance_score] is [Math.min(1, importance_score + 0.05)], and nothing
    else in the store changes.  A second call on the same identifier finds
    the updated record and strengthens it again, so the call is not
    idempotent; in exact arithmetic a score below 1 strictly rises. *)
Theorem accessMemory_strengthens :
  (forall (num : Type) (N : JSNumber num) (now : Z) (memoryId : string)
          (memories : list (MemoryRecord num)),
      In memoryId (map id memories) ->
      exists pre m post r,
        memories = pre ++ m :: post
        /\ ~ In memoryId (map id pre)
        /\ id m = memoryId
        /\ accessMemory now memoryId memories = (Some r, pre ++ r :: post)
        /\ usage_count r = usage_count m + 1
        /\ last_accessed r = now
        /\ importance_score r
           = Math_min (lit 1) (add (importance_score m) (lit 0.05))
        /\ id r = id m
        /\ forall later : Z,
             exists r2,
               accessMemory later memoryId (pre ++ r :: post)
               = (Some r2, pre ++ r2 :: post)
               /\ usage_count r2 = usage_count m + 2
               /\ last_accessed r2 = later
               /\ importance_score r2
                  = Math_min (lit 1) (add (importance_score r) (lit 0.05))
               /\ r2 <> r)
  /\ (forall (now : Z) (m : MemoryRecord Q),
        importance_score m < 1 ->
        importance_score m < importance_score (strengthen now m))%Q.
Proof.
  split.
  - intros num N now memoryId memories Hin.
    destruct (first_with_id memoryId memories Hin)
      as [pre [m [post [-> [Hpre Hm]]]]].
    exists pre, m, post, (strengthen now m).
    split; [reflexivity|]. split; [exact Hpre|]. split; [exact Hm|].
    split; [now apply accessMemory_first|].
    do 4 (split; [reflexivity|]).
    intros later. exists (strengthen later (strengthen now m)).
    split; [now apply accessMemory_first|].
    split; [simpl; lia|]. do 2 (split; [reflexivity|]).
    intros Heq. apply (f_equal usage_count) in Heq. simpl in Heq. lia.
  - intros now m Hlt. simpl.
    destruct (Q.min_spec 1 (importance_score m + 0.05)) as [[_ ->] | [_ ->]].
    + exact Hlt.
    + lra.
Qed.

Lemma accessMemory_strengthens_witness :
  (exists r,
      accessMemory (N := binary64) 1700000500000 scenario_id sample_store
      = (Some r, r :: [blank_record])
      /\ usage_count r = 2
      /\ last_accessed r = 1700000500000)
  /\ (importance_score (scenario_record (N := exact))
      < importance_score (strengthen 1700000500000 scenario_record))%Q.
Proof.
  split.
  - destruct (proj1 accessMemory_strengthens float binary64 1700000500000
                scenario_id sample_store)
      as [pre [m [post [r [Hsplit [Hpre [Hm [Hcall [Husage [Hlast _]]]]]]]]]].
    + simpl. tauto.
    + destruct pre as [|x pre].
      * injection Hsplit as <- <-. exists r. repeat split; assumption.
      * exfalso. apply Hpre. injection Hsplit as <- Hrest. now left.
  - apply (proj2 accessMemory_strengthens 1700000500000 scenario_record).
    vm_compute. reflexivity.
Defined.

(** ** dreamStateProcessing *)

Section Consolidation.

Context {num : Type} {N : JSNumber num}.

Lemma dreamStateProcessing_map (memories : list (MemoryRecord num)) :
  dreamStateProcessing memories
  = (tt, map (fun m => mark_processed (reinforce m)) memories).
Proof.
  unfold dreamStateProcessing, bind, forEach. now rewrite map_map.
Qed.

Lemma reinforce_frame (m : MemoryRecord num) :
  same_outside_score_and_flag m (mark_processed (reinforce m)).
Proof.
  unfold reinforce, same_outside_score_and_flag.
  destruct (3 <? usage_count m); simpl; repeat split.
Qed.

Lemma reinforce_effect (m : MemoryRecord num) :
  consolidated m (mark_processed (reinforce m)).
Proof.
  unfold reinforce, consolidated.
  destruct (3 <? usage_count m); simpl; split; reflexivity.
Qed.

Lemma Forall2_map_right {A B : Type} (R : A -> B -> Prop) (f : A -> B) l :
  (forall a, R a (f a)) -> Forall2 R l (map f l).
Proof.
  intros HR. induction l as [|a l IH]; simpl; constructor; auto.
Qed.

End Consolidation.

(** C10.  [dreamStateProcessing] assigns to [importance_score] and
    [dream_state] only: the store keeps its length, and position by position
    every record keeps its id, user_id, title, content, embedding,
    emotion_flag, date_created, last_accessed, usage_count, decay_rate,
    context_tags, source_type and write_method. *)
Theorem dreamStateProcessing_frame {num : Type} {N : JSNumber num}
    (memories : list (MemoryRecord num)) :
  List.length (snd (dreamStateProcessing memories)) = List.length memories
  /\ Forall2 same_outside_score_and_flag
       memories (snd (dreamStateProcessing memories)).
Proof.
  rewrite dreamStateProcessing_map. simpl. split.
  - apply length_map.
  - apply Forall2_map_right. exact reinforce_frame.
Qed.

(** C7.  Each call of [dreamStateProcessing] sets [dream_state] of every
    record and replaces the score of every record whose [usage_count] exceeds
    3 by [Math.min(1, importance_score + 0.02)].  For a record with
    [usage_count = 5] two calls in a row each apply the boost, and the flag is
    true after the first call and after the second; in exact arithmetic, with
    room below the clamp, the score after the calls is the original score
    plus 0.02 and plus 0.04. *)
Theorem dreamStateProcessing_boost :
  (forall (num : Type) (N : JSNumber num) (memories : list (MemoryRecord num)),
      Forall2 consolidated memories (snd (dreamStateProcessing memories)))
  /\ (forall (num : Type) (N : JSNumber num) (m : MemoryRecord num),
        usage_count m = 5 ->
        exists m1 m2,
          snd (dreamStateProcessing [m]) = [m1]
          /\ snd (dreamStateProcessing [m1]) = [m2]
          /\ importance_score m1
             = Math_min (lit 1) (add (importance_score m) (lit 0.02))
          /\ dream_state m1 = true
          /\ importance_score m2
             = Math_min (lit 1) (add (importance_score m1) (lit 0.02))
          /\ dream_state m2 = true)
  /\ (forall m : MemoryRecord Q,
        usage_count m = 5 ->
        (importance_score m + 0.04 <= 1)%Q ->
        exists m1 m2,
          snd (dreamStateProcessing [m]) = [m1]
          /\ snd (dreamStateProcessing [m1]) = [m2]
          /\ (importance_score m1 == importance_score m + 0.02)%Q
          /\ (importance_score m2 == importance_score m + 0.04)%Q
          /\ ~ (importance_score m2 == importance_score m1)%Q).
Proof.
  split; [|split].
  - intros num N memories. rewrite dreamStateProcessing_map. simpl.
    apply Forall2_map_right. exact reinforce_effect.
  - intros num N m Hcount.
    exists (mark_processed (reinforce m)),
           (mark_processed (reinforce (mark_processed (reinforce m)))).
    rewrite !dreamStateProcessing_map. simpl.
    unfold reinforce at 1 3 4. simpl. rewrite Hcount. simpl.
    unfold reinforce. rewrite Hcount. simpl. repeat split.
  - intros m Hcount Hroom.
    exists (mark_processed (reinforce m)),
           (mark_processed (reinforce (mark_processed (reinforce m)))).
    rewrite !dreamStateProcessing_map. simpl.
    unfold reinforce at 1 3 4. simpl. rewrite Hcount. simpl.
    unfold reinforce. rewrite Hcount. simpl.
    destruct (Q.min_spec 1 (importance_score m + 0.02)) as [[L1 E1] | [L1 E1]];
      destruct (Q.min_spec 1 (Qmin 1 (importance_score m + 0.02) + 0.02))
        as [[L2 E2] | [L2 E2]];
      repeat split; lra.
Qed.

Lemma dreamStateProcessing_boost_witness :
  (exists m1 m2,
      snd (dreamStateProcessing [used_record (N := binary64)]) = [m1]
      /\ snd (dreamStateProcessing [m1]) = [m2]
      /\ importance_score m1
         = Math_min (lit 1) (add (importance_score (used_record (N := binary64)))
                                 (lit 0.02))
      /\ dream_state m1 = true
      /\ importance_score m2
         = Math_min (lit 1) (add (importance_score m1) (lit 0.02))
      /\ dream_state m2 = true)
  /\ (exists m1 m2,
        snd (dreamStateProcessing [used_record (N := exact)]) = [m1]
        /\ snd (dreamStateProcessing [m1]) = [m2]
        /\ (importance_score m1 == importance_score (used_record (N := exact)) + 0.02)%Q
        /\ (importance_score m2 == importance_score (used_record (N := exact)) + 0.04)%Q
        /\ ~ (importance_score m2 == importance_score m1)%Q).
Proof.
  split.
  - apply (proj1 (proj2 dreamStateProcessing_boost) float binary64 used_record).
    reflexivity.
  - apply (proj2 (proj2 dreamStateProcessing_boost) used_record).
    + reflexivity.
    + vm_compute. discriminate.
Defined.

(** ** getMemoryStats *)

(** C8.  On the empty store [getMemoryStats] returns zero counts and a zero
    average: the sum 0 divided by the length 0 is NaN, which [|| 0] replaces
    by 0.  The store stays empty. *)
Theorem getMemoryStats_empty (now : Z) :
  getMemoryStats (N := binary64) now []
  = ({| total_memories := 0;
        active_memories := 0;
        decayed_memories := 0;
        average_importance := PrimFloat.zero;
        emotional_distribution := [];
        recent_activity := 0 |}, [])
  /\ PrimFloat.is_nan (div (lit 0) (ofZ 0)) = true.
Proof.
  split; reflexivity.
Qed.

(** ** No input validation in createMemory and retrieveMemories *)

Lemma slice0_negative {A : Type} (l : list A) (k : positive) :
  slice0 l (Z.neg k) = firstn (List.length l - Pos.to_nat k) l.
Proof.
  unfold slice0. simpl. f_equal. lia.
Qed.

(** Against C1: called with an empty title and an empty content,
    [createMemory] returns a record and the store has grown by it; called
    with limit 0, [retrieveMemories] returns both records of the sample
    store, and with limit -1 the first of the two. *)
Lemma createMemory_accepts_empty_input :
  (exists m,
      createMemory (N := binary64) 1700000000001 "p0o9i8u7y" "" "" None None None []
      = (m, [m])
      /\ title m = "" /\ content m = "")
  /\ List.length
       (fst (retrieveMemories (N := binary64) 1700000500000
               (mkQuery None None None None (Some 0)) sample_store)) = 2%nat
  /\ List.length
       (fst (retrieveMemories (N := binary64) 1700000500000
               (mkQuery None None None None (Some (-1))) sample_store)) = 1%nat.
Proof.
  split; [|split].
  - eexists. split; [reflexivity | split; reflexivity].
  - vm_compute. reflexivity.
  - vm_compute. reflexivity.
Qed.

(** C1, as the code has it.  [createMemory] accepts every title and every
    content, the empty ones included: it returns the new record, which
    carries the title and the content it was given, and the store is the old
    store with that record appended.  [retrieveMemories] accepts every limit:
    with limit 0 it returns the first 10 records of the ranking, with a
    negative limit [-k] the ranking without its last [k] records, and it
    leaves the store as it was.  Neither has a failure result. *)
Theorem createMemory_retrieveMemories_no_validation
    {num : Type} {N : JSNumber num} :
  (forall now rnd title' content' emotion sourceType writeMethod
          (memories : list (MemoryRecord num)),
      exists m,
        createMemory now rnd title' content' emotion sourceType writeMethod
          memories
        = (m, memories ++ [m])
        /\ title m = title' /\ content m = content')
  /\ (forall now text emotion tags min_importance
             (memories : list (MemoryRecord num)),
        let query := mkQuery text emotion tags min_importance (Some 0) in
        retrieveMemories now query memories
        = (firstn 10 (ranked now query memories), memories))
  /\ (forall now text emotion tags min_importance (k : positive)
             (memories : list (MemoryRecord num)),
        let query := mkQuery text emotion tags min_importance (Some (Z.neg k)) in
        retrieveMemories now query memories
        = (firstn (List.length (ranked now query memories) - Pos.to_nat k)
             (ranked now query memories),
           memories)).
Proof.
  split; [|split].
  - intros. eexists. split; [reflexivity | split; reflexivity].
  - intros. reflexivity.
  - intros. unfold retrieveMemories, bind, read, ret.
    unfold limit_or_10, query. simpl q_limit. cbv iota beta.
    change (Z.neg k =? 0) with false. cbv iota.
    now rewrite slice0_negative.
Qed.

(** ** Decay *)

Section ExactDecay.

Local Open Scope Q_scope.

Lemma getEmotionalWeight_range (e : Emotion) :
  0.3 <= getEmotionalWeight (N := exact) (emotion_name e) <= 0.9.
Proof.
  destruct e; vm_compute; split; discriminate.
Qed.

(** The rate [effectiveDecay] of [calculateDecay] is at least 0.001 a day:
    the two protections add up to 0.8 + 0.18 at most. *)
Lemma effectiveDecay_positive (m : MemoryRecord Q) :
  0.001 <= 0.05 * (1 - Qmin 0.8 (inject_Z (usage_count m) * 0.1)
                     - getEmotionalWeight (emotion_name (emotion_flag m)) * 0.2).
Proof.
  pose proof (Q.le_min_l 0.8 (inject_Z (usage_count m) * 0.1)) as Hu.
  pose proof (getEmotionalWeight_range (emotion_flag m)) as [_ He].
  lra.
Qed.

Lemma days_monotone (last now1 now2 : Z) :
  (now1 <= now2)%Z ->
  inject_Z (now1 - last) / inject_Z msPerDay
  <= inject_Z (now2 - last) / inject_Z msPerDay.
Proof.
  intros Hle. unfold Qdiv. apply Qmult_le_compat_r.
  - rewrite <- Zle_Qle. lia.
  - vm_compute. discriminate.
Qed.

End ExactDecay.

(** C2.  For a fixed record the decayed score does not increase with the time
    since the last access: more days since the access never give a higher
    score, and a later clock reading never gives a higher [calculateDecay]. *)
Theorem calculateDecay_monotone (m : MemoryRecord Q) :
  (forall d1 d2 : Q,
      0 <= d1 -> d1 <= d2 -> decayedScore m d2 <= decayedScore m d1)%Q
  /\ (forall now1 now2 : Z,
        last_accessed m <= now1 -> now1 <= now2 ->
        (calculateDecay now2 m <= calculateDecay now1 m)%Q).
Proof.
  assert (Hmono : forall d1 d2 : Q,
             (d1 <= d2 -> decayedScore m d2 <= decayedScore m d1)%Q).
  { intros d1 d2 Hle. unfold decayedScore. simpl.
    apply Q.max_le_compat_l.
    pose proof (effectiveDecay_positive m) as Hrate.
    set (rate := (0.05 * (1 - Qmin 0.8 (inject_Z (usage_count m) * 0.1)
                          - getEmotionalWeight (emotion_name (emotion_flag m))
                            * 0.2))%Q) in *.
    assert (rate * d1 <= rate * d2)%Q.
    { rewrite (Qmult_comm rate d1), (Qmult_comm rate d2).
      apply Qmult_le_compat_r; [exact Hle | lra]. }
    lra. }
  split.
  - intros d1 d2 _ Hle. now apply Hmono.
  - intros now1 now2 _ Hle. unfold calculateDecay. apply Hmono.
    now apply days_monotone.
Qed.

Lemma calculateDecay_monotone_witness :
  (decayedScore (N := exact) scenario_record 10
   <= decayedScore (N := exact) scenario_record 2)%Q
  /\ (calculateDecay (N := exact) 1700864000000 scenario_record
      <= calculateDecay (N := exact) 1700000500000 scenario_record)%Q.
Proof.
  split.
  - apply (proj1 (calculateDecay_monotone scenario_record) 2%Q 10%Q).
    + vm_compute. discriminate.
    + vm_compute. discriminate.
  - apply (proj2 (calculateDecay_monotone scenario_record)
             1700000500000 1700864000000).
    + vm_compute. discriminate.
    + vm_compute. discriminate.
Defined.

(** ** detectImportance *)

Section Counting.

Context {num : Type} {N : JSNumber num}.

Lemma add_times_succ (n : nat) (bonus score : num) :
  add_times (S n) bonus score = add_times n bonus (add score bonus).
Proof.
  unfold add_times.
  exact (Nat.iter_succ_r n num (fun s : num => add s bonus) score).
Qed.

Lemma addKeywordBonus_count content (bonus : num) keywords (score : num) :
  addKeywordBonus content bonus keywords score
  = add_times (matches content keywords) bonus score.
Proof.
  unfold addKeywordBonus, matches. revert score.
  induction keywords as [|keyword rest IH]; intros score.
  - reflexivity.
  - cbn [fold_left filter].
    destruct (includes (toLowerCase content) keyword).
    + cbn [List.length]. now rewrite add_times_succ, IH.
    + apply IH.
Qed.

Lemma detectImportance_counts content :
  detectImportance content
  = score_of_counts (matches content importanceKeywords)
      (matches content emotionalKeywords)
      (Nat.ltb 200 (String.length content))
      (Nat.ltb 500 (String.length content)).
Proof.
  unfold detectImportance, score_of_counts.
  now rewrite !addKeywordBonus_count.
Qed.

End Counting.

Lemma matches_bound content keywords :
  (matches content keywords <= List.length keywords)%nat.
Proof.
  unfold matches. apply filter_length_le.
Qed.

Section ExactImportance.

Local Open Scope Q_scope.

Lemma add_times_exact (n : nat) (bonus score : Q) :
  add_times n bonus score == score + bonus * inject_Z (Z.of_nat n).
Proof.
  unfold add_times. induction n as [|n IH].
  - simpl. change (inject_Z 0) with 0. lra.
  - rewrite Nat2Z.inj_succ. unfold Z.succ. rewrite inject_Z_plus.
    change (inject_Z 1) with 1. cbn [Nat.iter nat_rect]. cbn [add exact].
    rewrite IH. lra.
Qed.

Lemma score_of_counts_exact (k e : nat) (long very_long : bool) :
  score_of_counts (N := exact) k e long very_long
  == formula_of_counts k e long very_long.
Proof.
  unfold score_of_counts, formula_of_counts. cbn [lit add Math_min exact].
  apply Q.min_compat; [reflexivity|].
  destruct long, very_long; rewrite !add_times_exact; lra.
Qed.

Lemma detectImportance_exact content :
  detectImportance (N := exact) content == detectImportance_spec content.
Proof.
  unfold detectImportance_spec. rewrite detectImportance_counts.
  apply score_of_counts_exact.
Qed.

Lemma detectImportance_range content :
  0.3 <= detectImportance (N := exact) content <= 1.
Proof.
  rewrite detectImportance_exact.
  unfold detectImportance_spec, formula_of_counts.
  assert (Hk : 0 <= inject_Z (Z.of_nat (matches content importanceKeywords))).
  { change 0 with (inject_Z 0). rewrite <- Zle_Qle. lia. }
  assert (He : 0 <= inject_Z (Z.of_nat (matches content emotionalKeywords))).
  { change 0 with (inject_Z 0). rewrite <- Zle_Qle. lia. }
  split.
  - apply Q.min_glb; [lra|].
    destruct (Nat.ltb 200 (String.length content));
      destruct (Nat.ltb 500 (String.length content)); lra.
  - apply Q.le_min_l.
Qed.

End ExactImportance.

(** Every pair of counts the two keyword lists allow, checked one by one. *)
Lemma rounds_formula_all (k e : nat) (long very_long : bool) :
  (k <= 11)%nat -> (e <= 7)%nat -> rounds_formula k e long very_long = true.
Proof.
  intros Hk He.
  assert (Hall : forallb
                   (fun k =>
                      forallb
                        (fun e =>
                           rounds_formula k e true true
                           && rounds_formula k e true false
                           && rounds_formula k e false true
                           && rounds_formula k e false false)
                        (seq 0 8))
                   (seq 0 12) = true)
    by (vm_compute; reflexivity).
  rewrite forallb_forall in Hall.
  specialize (Hall k). rewrite in_seq, forallb_forall in Hall.
  specialize (Hall ltac:(lia) e). rewrite in_seq in Hall.
  specialize (Hall ltac:(lia)).
  apply andb_prop in Hall as [Hall Hff].
  apply andb_prop in Hall as [Hall Hft].
  apply andb_prop in Hall as [Htt Htf].
  destruct long, very_long; assumption.
Qed.

(** Against C3: on the doubles the program computes with, the scenario
    content scores 0.3 + 0.2 + 0.2 + 0.2 = 0.8999999999999999
    (0x1.cccccccccccccp-1), the double just below the double 0.9
    (0x1.ccccccccccccdp-1): the last addition, 0.7 + 0.2, rounds down. *)
Lemma detectImportance_scenario_binary64 :
  detectImportance (N := binary64) scenario = 0x1.cccccccccccccp-1%float
  /\ lit (JSNumber := binary64) 0.9 = 0x1.ccccccccccccdp-1%float
  /\ PrimFloat.eqb (detectImportance (N := binary64) scenario)
       (lit (JSNumber := binary64) 0.9) = false
  /\ PrimFloat.ltb (detectImportance (N := binary64) scenario)
       (lit (JSNumber := binary64) 0.9) = true.
Proof.
  repeat split; vm_compute; reflexivity.
Qed.

(** C3, as the code has it.  For every content [detectImportance] is
    [Math.min(1, s)], where [s] is 0.3 with 0.2 added once for each importance
    keyword that occurs in the lower-cased content, 0.15 added once for each
    emotional keyword that occurs, and 0.1 added for a length above 200 and
    again for a length above 500; the keywords of each list are distinct.  In
    exact arithmetic that is the specification's formula, and the scenario
    content scores 0.9.  On doubles each addition rounds: the result is within
    2^-53 of the formula's value, and the scenario content scores
    0.8999999999999999, the double just below the double 0.9. *)
Theorem detectImportance_formula :
  (forall (num : Type) (N : JSNumber num) (content : string),
      detectImportance content
      = score_of_counts (matches content importanceKeywords)
          (matches content emotionalKeywords)
          (Nat.ltb 200 (String.length content))
          (Nat.ltb 500 (String.length content)))
  /\ NoDup importanceKeywords
  /\ NoDup emotionalKeywords
  /\ (forall content : string,
        detectImportance (N := exact) content == detectImportance_spec content)%Q
  /\ (forall content : string,
        exists q : Q,
          Binary64.to_Q (detectImportance (N := binary64) content) = Some q
          /\ Qabs (q - detectImportance_spec content) <= Qpower 2 (-53))%Q
  /\ (detectImportance (N := exact) scenario == 0.9)%Q
  /\ detectImportance (N := binary64) scenario = 0x1.cccccccccccccp-1%float
  /\ PrimFloat.next_up (detectImportance (N := binary64) scenario)
     = lit (JSNumber := binary64) 0.9.
Proof.
  split; [intros; apply detectImportance_counts|].
  split; [repeat constructor; simpl; intuition discriminate|].
  split; [repeat constructor; simpl; intuition discriminate|].
  split; [exact detectImportance_exact|].
  split.
  - intros content.
    pose proof (rounds_formula_all
                  (matches content importanceKeywords)
                  (matches content emotionalKeywords)
                  (Nat.ltb 200 (String.length content))
                  (Nat.ltb 500 (String.length content))
                  (matches_bound content importanceKeywords)
                  (matches_bound content emotionalKeywords)) as Hround.
    unfold rounds_formula in Hround.
    rewrite <- detectImportance_counts in Hround.
    destruct (Binary64.to_Q (detectImportance content)) as [q|];
      [|discriminate].
    exists q. split; [reflexivity|].
    apply Qle_bool_iff in Hround. exact Hround.
  - repeat split; vm_compute; reflexivity.
Qed.

(** ** Facts about doubles *)

(** *** Rounding keeps the sign

    [binary_round_aux] shifts the mantissa right, rounds it to nearest even
    and shifts once more: a mantissa that is not negative stays so, hence the
    result carries the sign it was given and is not NaN. *)

Lemma shr_1_nonneg mrs : 0 <= shr_m mrs -> 0 <= shr_m (shr_1 mrs).
Proof.
  destruct mrs as [m r s]. simpl.
  destruct m as [|[p|p|]|[p|p|]]; simpl; lia.
Qed.

Lemma iter_pos_shr_1_nonneg (p : positive) mrs :
  0 <= shr_m mrs -> 0 <= shr_m (iter_pos shr_1 p mrs).
Proof.
  revert mrs. induction p as [p IH|p IH|]; intros mrs Hm; simpl.
  - apply IH, IH, shr_1_nonneg, Hm.
  - apply IH, IH, Hm.
  - apply shr_1_nonneg, Hm.
Qed.

Lemma shr_fexp_nonneg m e l :
  0 <= m -> 0 <= shr_m (fst (shr_fexp prec emax m e l)).
Proof.
  intros Hm. unfold shr_fexp, shr.
  assert (H0 : 0 <= shr_m (shr_record_of_loc m l))
    by (destruct l as [|[| |]]; exact Hm).
  destruct (fexp prec emax (Zdigits2 m + e) - e); simpl; auto.
  now apply iter_pos_shr_1_nonneg.
Qed.

Lemma round_nearest_even_nonneg m l : 0 <= m -> 0 <= round_nearest_even m l.
Proof.
  intros Hm. unfold round_nearest_even.
  destruct l as [|[| |]]; try destruct (Z.even m); lia.
Qed.

(** Rounding a mantissa that is not negative gives no NaN and no negative
    number. *)
Lemma binary_round_aux_nonneg m e l :
  0 <= m -> nonneg (binary_round_aux prec emax false m e l).
Proof.
  intros Hm. unfold binary_round_aux.
  pose proof (shr_fexp_nonneg m e l Hm) as H1.
  destruct (shr_fexp prec emax m e l) as [mrs' e'].
  simpl in H1.
  pose proof (shr_fexp_nonneg _ e' loc_Exact
                (round_nearest_even_nonneg _ (loc_of_shr_record mrs') H1)) as H2.
  destruct (shr_fexp prec emax _ e' loc_Exact) as [mrs'' e''].
  simpl in H2.
  destruct (shr_m mrs'') as [|p|p]; simpl.
  - exact I.
  - destruct (_ <=? _); exact eq_refl.
  - lia.
Qed.

Lemma binary_normalize_nonneg m e :
  0 <= m -> nonneg (binary_normalize prec emax m e false).
Proof.
  intros Hm. destruct m as [|p|p]; simpl.
  - exact I.
  - unfold binary_round. destruct (shl_align _ _ _) as [mz ez].
    apply binary_round_aux_nonneg. lia.
  - lia.
Qed.

Lemma SFadd_nonneg x y : nonneg x -> nonneg y -> nonneg (SFadd prec emax x y).
Proof.
  destruct x as [sx|sx| |sx mx ex], y as [sy|sy| |sy my ey]; simpl;
    intros Hx Hy; subst; try exact I; try reflexivity; try contradiction.
  - destruct sx, sy; exact I.
  - apply binary_normalize_nonneg. simpl. lia.
Qed.

Lemma SFcompare_refl x : nonneg x -> SFcompare x x = Some Eq.
Proof.
  destruct x as [s|s| |s m e]; simpl; intros Hx; subst;
    try reflexivity; try contradiction.
  now rewrite Z.compare_refl, Pos.compare_cont_refl.
Qed.

Lemma zero_leb_nonneg (x : float) :
  PrimFloat.leb 0 x = true <-> nonneg (Prim2SF x).
Proof.
  rewrite leb_spec.
  change (Prim2SF 0) with (S754_zero false).
  destruct (Prim2SF x) as [s|s| |s m e]; unfold SFleb; simpl.
  - tauto.
  - destruct s; split; intros; (discriminate || reflexivity || idtac); auto.
  - split; [discriminate | contradiction].
  - destruct s; split; intros; (discriminate || reflexivity || idtac); auto.
Qed.

Lemma not_above_one (x : spec_float) :
  nonneg x -> SFltb SF_one x = false -> SFleb x SF_one = true.
Proof.
  unfold SF_one.
  destruct x as [s|s| |s m e]; cbv [nonneg SFltb SFleb SFcompare];
    intros Hx Hlt; subst; try reflexivity; try discriminate; try contradiction.
  rewrite (Z.compare_antisym e (-52)) in Hlt.
  destruct (e ?= -52); cbv [CompOpp] in Hlt; try reflexivity; try discriminate.
  rewrite Pos.compare_cont_spec in *. cbv [Pos.switch_Eq] in *.
  rewrite (Pos.compare_antisym m 4503599627370496) in Hlt.
  destruct (m ?= 4503599627370496)%positive; cbv [CompOpp] in Hlt;
    try reflexivity; discriminate.
Qed.

(** [Math.min(1, x)] of a double [x] that is not negative and not NaN lies
    between 0 and 1. *)
Lemma min_one_unit_interval (x : float) :
  nonneg (Prim2SF x) -> unit_interval (Binary64.min 1 x).
Proof.
  intros Hx. unfold Binary64.min, unit_interval.
  assert (Hnan : PrimFloat.is_nan x = false).
  { unfold PrimFloat.is_nan. rewrite eqb_spec. unfold SFeqb.
    now rewrite SFcompare_refl. }
  rewrite Hnan. change (PrimFloat.is_nan 1) with false. cbn [orb].
  destruct (PrimFloat.ltb 1 x) eqn:H1x.
  - split; reflexivity.
  - change (Binary64.is_neg_zero 1) with false.
    assert (Hx0 : PrimFloat.leb 0 x = true) by now apply zero_leb_nonneg.
    assert (Hx1 : PrimFloat.leb x 1 = true).
    { rewrite ltb_spec in H1x. rewrite leb_spec.
      now apply not_above_one. }
    destruct (PrimFloat.ltb x 1); split; assumption.
Qed.

(** *** A positive difference does not round to zero

    A right shift by [p] divides the mantissa by [2^p], and the format shifts
    out fewer bits than the mantissa has when the exponent is at least
    [emin]. *)

Lemma digits2_pos_bounds (p : positive) :
  2 ^ (Zpos (digits2_pos p) - 1) <= Zpos p < 2 ^ Zpos (digits2_pos p).
Proof.
  induction p as [p IH|p IH|]; cbn [digits2_pos].
  - rewrite Pos2Z.inj_succ.
    replace (Z.succ (Zpos (digits2_pos p)) - 1) with (Zpos (digits2_pos p) - 1 + 1) by lia.
    rewrite Z.pow_add_r, Z.pow_succ_r by lia. lia.
  - rewrite Pos2Z.inj_succ.
    replace (Z.succ (Zpos (digits2_pos p)) - 1) with (Zpos (digits2_pos p) - 1 + 1) by lia.
    rewrite Z.pow_add_r, Z.pow_succ_r by lia. lia.
  - cbn. lia.
Qed.

Lemma shr_1_div2 mrs : 0 <= shr_m mrs -> shr_m (shr_1 mrs) = shr_m mrs / 2.
Proof.
  destruct mrs as [m r s]. cbn [shr_m shr_1].
  destruct m as [|[p|p|]|[p|p|]]; cbn [shr_m]; intros Hm; try lia.
  - reflexivity.
  - apply Z.div_unique with (r := 1); lia.
  - apply Z.div_unique with (r := 0); lia.
  - reflexivity.
Qed.

Lemma iter_pos_shr_1_div (p : positive) mrs :
  0 <= shr_m mrs ->
  shr_m (iter_pos shr_1 p mrs) = shr_m mrs / 2 ^ Zpos p.
Proof.
  revert mrs. induction p as [p IH|p IH|]; intros mrs Hm; cbn [iter_pos].
  - rewrite IH, IH, shr_1_div2 by
      (try apply iter_pos_shr_1_nonneg; try apply shr_1_nonneg; exact Hm).
    rewrite !Z.div_div by (try apply Z.pow_pos_nonneg; lia).
    f_equal. rewrite Pos2Z.inj_xI, <- Z.pow_add_r, <- Z.pow_succ_r by lia.
    f_equal. lia.
  - rewrite IH, IH by (try apply iter_pos_shr_1_nonneg; exact Hm).
    rewrite !Z.div_div by (try apply Z.pow_pos_nonneg; lia).
    f_equal. rewrite Pos2Z.inj_xO, <- Z.pow_add_r by lia. f_equal. lia.
  - rewrite shr_1_div2 by exact Hm. reflexivity.
Qed.

Lemma shr_fexp_pos (p : positive) e l :
  emin <= e ->
  1 <= shr_m (fst (shr_fexp prec emax (Zpos p) e l))
  /\ emin <= snd (shr_fexp prec emax (Zpos p) e l).
Proof.
  intros He. unfold shr_fexp, shr.
  assert (H0 : shr_m (shr_record_of_loc (Zpos p) l) = Zpos p)
    by (destruct l as [|[| |]]; reflexivity).
  pose proof (digits2_pos_bounds p) as [Hlow _].
  cbn [Zdigits2].
  destruct (fexp prec emax (Zpos (digits2_pos p) + e) - e) as [|q|q] eqn:Hn;
    cbn [fst snd].
  - rewrite H0. lia.
  - rewrite iter_pos_shr_1_div, H0 by (rewrite H0; lia).
    unfold fexp, SpecFloat.emin, prec, emax in *.
    split; [|lia].
    apply Z.div_le_lower_bound; [apply Z.pow_pos_nonneg; lia|].
    rewrite Z.mul_1_r.
    apply Z.le_trans with (2 ^ (Zpos (digits2_pos p) - 1)); [|exact Hlow].
    apply Z.pow_le_mono_r; lia.
  - rewrite H0. lia.
Qed.

Lemma round_nearest_even_ge m l : m <= round_nearest_even m l.
Proof.
  unfold round_nearest_even.
  destruct l as [|[| |]]; try destruct (Z.even m); lia.
Qed.

Lemma binary_round_aux_pos (p : positive) e l :
  emin <= e -> positive_sf (binary_round_aux prec emax false (Zpos p) e l).
Proof.
  intros He. unfold binary_round_aux.
  pose proof (shr_fexp_pos p e l He) as [H1 He'].
  destruct (shr_fexp prec emax (Zpos p) e l) as [mrs' e'].
  cbn [fst snd] in H1, He'.
  pose proof (round_nearest_even_ge (shr_m mrs') (loc_of_shr_record mrs')) as Hr.
  destruct (round_nearest_even (shr_m mrs') (loc_of_shr_record mrs'))
    as [|p2|p2] eqn:Hround; try lia.
  pose proof (shr_fexp_pos p2 e' loc_Exact He') as [H2 _].
  destruct (shr_fexp prec emax (Zpos p2) e' loc_Exact) as [mrs'' e''].
  cbn [fst] in H2.
  destruct (shr_m mrs'') as [|p3|p3]; try lia.
  destruct (_ <=? _); exact eq_refl.
Qed.

Lemma binary_normalize_pos m e :
  0 < m -> emin <= e -> positive_sf (binary_normalize prec emax m e false).
Proof.
  intros Hm He. destruct m as [|p|p]; try lia.
  cbn [binary_normalize]. unfold binary_round, shl_align.
  destruct (fexp prec emax (Zpos (digits2_pos p) + e) - e) as [|d|d] eqn:Hd.
  - now apply binary_round_aux_pos.
  - now apply binary_round_aux_pos.
  - apply binary_round_aux_pos.
    unfold fexp, SpecFloat.emin, prec, emax in *. lia.
Qed.

Lemma binary_normalize_not_pos m e :
  m <= 0 -> ~ positive_sf (binary_normalize prec emax m e false).
Proof.
  intros Hm. destruct m as [|p|p]; try lia; cbn [binary_normalize].
  - exact (fun H => H).
  - unfold binary_round. destruct (shl_align _ _ _) as [mz ez].
    unfold binary_round_aux.
    destruct (shr_fexp prec emax (Zpos mz) ez loc_Exact) as [mrs' e'].
    destruct (shr_fexp prec emax _ e' loc_Exact) as [mrs'' e''].
    destruct (shr_m mrs'') as [|p3|p3]; cbn [positive_sf]; try tauto.
    destruct (_ <=? _); cbn [positive_sf]; discriminate.
Qed.

Lemma zero_ltb_positive (x : float) :
  PrimFloat.ltb 0 x = true <-> positive_sf (Prim2SF x).
Proof.
  rewrite ltb_spec.
  change (Prim2SF 0) with (S754_zero false).
  destruct (Prim2SF x) as [s|s| |s m e]; cbv [SFltb SFcompare positive_sf].
  - split; [discriminate | contradiction].
  - destruct s; split; intros; (discriminate || reflexivity || idtac); auto.
  - split; [discriminate | contradiction].
  - destruct s; split; intros; (discriminate || reflexivity || idtac); auto.
Qed.

(** *** Subtraction and comparison *)

Lemma pos_iter_xO (m d : positive) :
  Zpos (Pos.iter xO m d) = Zpos m * 2 ^ Zpos d.
Proof.
  induction d as [|d IH] using Pos.peano_ind.
  - cbn [Pos.iter]. lia.
  - rewrite Pos.iter_succ, Pos2Z.inj_xO, IH, Pos2Z.inj_succ, Z.pow_succ_r by lia.
    lia.
Qed.

(** The mantissa of [m * 2^e] written at the smaller exponent [ez]. *)
Lemma shl_align_value (m : positive) (e ez : Z) :
  ez <= e -> Zpos (fst (shl_align m e ez)) = Zpos m * 2 ^ (e - ez).
Proof.
  intros Hle. unfold shl_align.
  destruct (ez - e) as [|d|d] eqn:Hd; cbn [fst]; try lia.
  - replace (e - ez) with 0 by lia. lia.
  - rewrite pos_iter_xO. f_equal. f_equal. lia.
Qed.

(** What validity says of a finite double. *)
Lemma bounded_canonical (m : positive) (e : Z) :
  bounded prec emax m e = true ->
  emin <= e
  /\ Zpos (digits2_pos m) <= 53
  /\ (emin < e -> Zpos (digits2_pos m) = 53).
Proof.
  unfold bounded, canonical_mantissa. intros H.
  apply andb_prop in H as [H _]. apply Z.eqb_eq in H.
  unfold fexp, SpecFloat.emin, prec, emax in *. lia.
Qed.

(** Valid positive doubles compare as their mantissas at a common exponent. *)
Lemma compare_aligned (ma mb : positive) (ea eb : Z) :
  bounded prec emax ma ea = true ->
  bounded prec emax mb eb = true ->
  match ea ?= eb with
  | Lt => Lt
  | Gt => Gt
  | Eq => Pos.compare_cont Eq ma mb
  end
  = (Zpos ma * 2 ^ (ea - Z.min ea eb) ?= Zpos mb * 2 ^ (eb - Z.min ea eb)).
Proof.
  intros Ha Hb.
  apply bounded_canonical in Ha as [Hea [Hda Hna]].
  apply bounded_canonical in Hb as [Heb [Hdb Hnb]].
  pose proof (digits2_pos_bounds ma) as [Hla Hua].
  pose proof (digits2_pos_bounds mb) as [Hlb Hub].
  assert (H53 : forall d, d <= 53 -> 2 ^ d <= 2 ^ 53)
    by (intros d Hd; apply Z.pow_le_mono_r; lia).
  assert (Hstep : forall k, 0 < k -> 2 <= 2 ^ k).
  { intros k Hk. change 2 with (2 ^ 1) at 1. apply Z.pow_le_mono_r; lia. }
  destruct (ea ?= eb) eqn:Hcmp.
  - apply Z.compare_eq in Hcmp. subst eb.
    rewrite Z.min_id, Z.sub_diag, Z.pow_0_r, !Z.mul_1_r.
    rewrite Pos.compare_cont_spec. cbn [Pos.switch_Eq].
    now destruct (ma ?= mb)%positive eqn:Hm; rewrite <- Pos2Z.inj_compare, Hm.
  - rewrite Z.compare_lt_iff in Hcmp. symmetry. apply Z.compare_lt_iff.
    rewrite Z.min_l by lia. rewrite Z.sub_diag, Z.pow_0_r, Z.mul_1_r.
    specialize (Hnb ltac:(lia)). rewrite Hnb in Hlb.
    specialize (H53 _ Hda). specialize (Hstep (eb - ea) ltac:(lia)).
    change (2 ^ (53 - 1)) with 4503599627370496 in Hlb.
    change (2 ^ 53) with 9007199254740992 in H53. nia.
  - rewrite Z.compare_gt_iff in Hcmp. symmetry. apply Z.compare_gt_iff.
    rewrite Z.min_r by lia. rewrite Z.sub_diag, Z.pow_0_r, Z.mul_1_r.
    specialize (Hna ltac:(lia)). rewrite Hna in Hla.
    specialize (H53 _ Hdb). specialize (Hstep (ea - eb) ltac:(lia)).
    change (2 ^ (53 - 1)) with 4503599627370496 in Hla.
    change (2 ^ 53) with 9007199254740992 in H53. nia.
Qed.

Lemma binary_normalize_positive_iff (d e : Z) :
  emin <= e ->
  positive_sf (binary_normalize prec emax d e false) <-> 0 < d.
Proof.
  intros He. split.
  - intros Hpos. destruct (Z.lt_ge_cases 0 d) as [Hd | Hd]; [exact Hd|].
    now apply binary_normalize_not_pos in Hpos.
  - intros Hd. now apply binary_normalize_pos.
Qed.

(** The difference [y - x] of two doubles is above zero exactly when [x] is
    below [y]. *)
Lemma SFsub_positive (x y : spec_float) :
  valid_binary x = true -> valid_binary y = true ->
  x <> S754_nan -> y <> S754_nan ->
  positive_sf (SFsub prec emax y x) <-> SFcompare x y = Some Lt.
Proof.
  intros Vx Vy Nx Ny.
  destruct x as [sx|sx| |sx mx ex], y as [sy|sy| |sy my ey];
    try contradiction; cbn [SFsub SFcompare positive_sf].
  - destruct sy, sx; cbn [positive_sf]; split;
      (discriminate || contradiction).
  - destruct sy; split; (discriminate || reflexivity || contradiction || auto).
  - destruct sy; split; (discriminate || reflexivity || contradiction || auto).
  - destruct sx; cbn [negb]; split;
      (discriminate || reflexivity || contradiction || auto).
  - destruct sy, sx; cbn [positive_sf]; split;
      (discriminate || reflexivity || contradiction || auto).
  - destruct sx; cbn [negb]; split;
      (discriminate || reflexivity || contradiction || auto).
  - destruct sx; cbn [negb]; split;
      (discriminate || reflexivity || contradiction || auto).
  - destruct sy; split; (discriminate || reflexivity || contradiction || auto).
  - cbn [valid_binary] in Vx, Vy.
    pose proof (compare_aligned mx my ex ey Vx Vy) as Hcmp.
    pose proof (bounded_canonical _ _ Vx) as [Hex _].
    pose proof (bounded_canonical _ _ Vy) as [Hey _].
    rewrite (Z.min_comm ey ex).
    rewrite binary_normalize_positive_iff by lia.
    rewrite !shl_align_value by lia.
    set (a := Zpos mx * 2 ^ (ex - Z.min ex ey)) in *.
    set (b := Zpos my * 2 ^ (ey - Z.min ex ey)) in *.
    assert (Ha : 0 < a) by (apply Z.mul_pos_pos; [|apply Z.pow_pos_nonneg]; lia).
    assert (Hb : 0 < b) by (apply Z.mul_pos_pos; [|apply Z.pow_pos_nonneg]; lia).
    destruct sx, sy; cbn [cond_Zopp].
    + replace (match ex ?= ey with
               | Eq => CompOpp (Pos.compare_cont Eq mx my)
               | Lt => Gt
               | Gt => Lt
               end)
        with (CompOpp (a ?= b))
        by (rewrite <- Hcmp; now destruct (ex ?= ey)).
      destruct (Z.compare_spec a b) as [Hab | Hab | Hab]; cbn [CompOpp];
        split; intros H; try discriminate; try reflexivity; lia.
    + split; [reflexivity | lia].
    + split; [lia | discriminate].
    + rewrite Hcmp.
      destruct (Z.compare_spec a b) as [Hab | Hab | Hab];
        split; intros H; try discriminate; try reflexivity; lia.
Qed.

(** On doubles that are not NaN, [0 < y - x] is [x < y]. *)
Lemma sub_positive (x y : float) :
  PrimFloat.is_nan x = false -> PrimFloat.is_nan y = false ->
  PrimFloat.ltb 0 (PrimFloat.sub y x) = PrimFloat.ltb x y.
Proof.
  intros Nx Ny.
  assert (Hnan : forall z, PrimFloat.is_nan z = false -> Prim2SF z <> S754_nan).
  { intros z Hz Hsf. unfold PrimFloat.is_nan in Hz. rewrite eqb_spec, Hsf in Hz.
    discriminate. }
  pose proof (SFsub_positive (Prim2SF x) (Prim2SF y)
                (Prim2SF_valid x) (Prim2SF_valid y) (Hnan x Nx) (Hnan y Ny))
    as Hiff.
  rewrite <- sub_spec, <- zero_ltb_positive in Hiff.
  rewrite (ltb_spec x y). unfold SFltb.
  destruct (PrimFloat.ltb 0 (PrimFloat.sub y x)).
  - destruct Hiff as [Hiff _]. now rewrite Hiff.
  - destruct (SFcompare (Prim2SF x) (Prim2SF y)) as [[| |]|]; try reflexivity.
    destruct Hiff as [_ Hiff]. now apply Hiff.
Qed.

Lemma SFcompare_antisym (x y : spec_float) :
  SFcompare y x = option_map CompOpp (SFcompare x y).
Proof.
  destruct x as [sx|sx| |sx mx ex], y as [sy|sy| |sy my ey];
    cbn [SFcompare option_map]; try reflexivity;
    try (destruct sx; reflexivity); try (destruct sy; reflexivity);
    try (destruct sx, sy; reflexivity).
  destruct sx, sy; try reflexivity; f_equal;
    rewrite (Z.compare_antisym ex ey);
    destruct (ex ?= ey); cbn [CompOpp]; try reflexivity;
    rewrite !Pos.compare_cont_spec; cbn [Pos.switch_Eq];
    rewrite (Pos.compare_antisym mx my);
    now destruct (mx ?= my)%positive.
Qed.

Lemma ltb_leb (x y : float) :
  PrimFloat.ltb x y = true -> PrimFloat.leb x y = true.
Proof.
  rewrite ltb_spec, leb_spec. unfold SFltb, SFleb.
  now destruct (SFcompare (Prim2SF x) (Prim2SF y)) as [[| |]|].
Qed.

Lemma not_ltb_leb (x y : float) :
  PrimFloat.is_nan x = false -> PrimFloat.is_nan y = false ->
  PrimFloat.ltb x y = false -> PrimFloat.leb y x = true.
Proof.
  intros Nx Ny. rewrite ltb_spec, leb_spec. unfold SFltb, SFleb.
  rewrite (SFcompare_antisym (Prim2SF x) (Prim2SF y)).
  unfold PrimFloat.is_nan in Nx, Ny. rewrite eqb_spec in Nx, Ny.
  destruct (Prim2SF x) as [sx|sx| |sx mx ex], (Prim2SF y) as [sy|sy| |sy my ey];
    try discriminate;
    (destruct (SFcompare _ _) as [[| |]|] eqn:Hc; cbn [option_map CompOpp];
     try reflexivity; try discriminate; cbn [SFcompare] in Hc; discriminate).
Qed.

(** ** Ranking *)

Section Sorting.

Context {A : Type} (after : A -> A -> bool).

Lemma insert_sorted_perm (x : A) (l : list A) :
  Permutation (insert_sorted after x l) (x :: l).
Proof.
  induction l as [|y l IH]; simpl.
  - apply Permutation_refl.
  - destruct (after x y).
    + rewrite IH. apply perm_swap.
    + apply Permutation_refl.
Qed.

Lemma sort_by_perm (l : list A) : Permutation (sort_by after l) l.
Proof.
  induction l as [|x l IH]; simpl.
  - constructor.
  - rewrite insert_sorted_perm. now constructor.
Qed.

(** An order [le] the comparator agrees with on the elements that satisfy
    [P]: [x] is moved behind [y] only when [le y x], and stays in front only
    when [le x y]. *)
Variable P : A -> Prop.
Variable le : A -> A -> Prop.
Hypothesis after_true : forall x y, P x -> P y -> after x y = true -> le y x.
Hypothesis after_false : forall x y, P x -> P y -> after x y = false -> le x y.

Lemma insert_sorted_hd (x a : A) (l : list A) :
  le a x -> HdRel le a l -> HdRel le a (insert_sorted after x l).
Proof.
  intros Hax Hal. destruct l as [|y l]; simpl.
  - now constructor.
  - destruct (after x y); constructor; auto.
    now inversion Hal.
Qed.

Lemma insert_sorted_sorted (x : A) (l : list A) :
  P x -> Forall P l -> Sorted le l -> Sorted le (insert_sorted after x l).
Proof.
  intros Hx Hall Hsorted. induction Hsorted as [|y l Hsorted IH Hhd]; simpl.
  - repeat constructor.
  - inversion Hall as [|y' l' Hy Hl]; subst.
    destruct (after x y) eqn:Hxy.
    + constructor; [now apply IH|].
      apply insert_sorted_hd; auto.
    + constructor; [now constructor|].
      constructor. auto.
Qed.

Lemma sort_by_sorted (l : list A) : Forall P l -> Sorted le (sort_by after l).
Proof.
  induction 1 as [|x l Hx Hl IH]; simpl.
  - constructor.
  - apply insert_sorted_sorted; [exact Hx| |exact IH].
    rewrite Forall_forall in *. intros y Hy. apply Hl.
    now apply (Permutation_in _ (sort_by_perm l)).
Qed.

End Sorting.

Lemma StronglySorted_firstn {A : Type} (R : A -> A -> Prop) (n : nat) (l : list A) :
  StronglySorted R l -> StronglySorted R (firstn n l).
Proof.
  intros Hs. revert n. induction Hs as [|x l Hs IH Hall]; intros [|n]; simpl;
    try constructor.
  - apply IH.
  - rewrite Forall_forall in *. intros y Hy. apply Hall.
    rewrite <- (firstn_skipn n l). apply in_or_app. now left.
Qed.

Lemma Sorted_firstn {A : Type} (R : A -> A -> Prop) (n : nat) (l : list A) :
  Sorted R l -> Sorted R (firstn n l).
Proof.
  intros Hs. revert n. induction Hs as [|x l Hs IH Hhd]; intros [|n]; simpl;
    try constructor.
  - apply IH.
  - destruct Hhd as [|y l' Hxy]; destruct n; simpl; constructor. exact Hxy.
Qed.

Lemma filter_all {A : Type} (p : A -> bool) (l : list A) :
  (forall x, p x = true) -> filter p l = l.
Proof.
  intros Hp. induction l as [|x l IH]; simpl.
  - reflexivity.
  - now rewrite Hp, IH.
Qed.

Lemma less_important_true (a b : RankedMemory Q) :
  less_important a b = true -> non_increasing b a.
Proof.
  unfold less_important, non_increasing, gtb. cbn [ltb sub lit exact].
  unfold Exact.lt_bool. intros H. apply negb_true_iff in H.
  destruct (Qlt_le_dec 0 (current_importance b - current_importance a))
    as [Hlt | Hle].
  - lra.
  - apply Qle_bool_iff in Hle. congruence.
Qed.

Lemma less_important_false (a b : RankedMemory Q) :
  less_important a b = false -> non_increasing a b.
Proof.
  unfold less_important, non_increasing, gtb. cbn [ltb sub lit exact].
  unfold Exact.lt_bool. intros H. apply negb_false_iff in H.
  apply Qle_bool_iff in H. lra.
Qed.

#[local] Instance non_increasing_trans : Transitive non_increasing.
Proof.
  intros a b c Hab Hbc. unfold non_increasing in *. lra.
Qed.

Lemma retrieveMemories_unfiltered {num : Type} {N : JSNumber num}
    (now n : Z) (memories : list (MemoryRecord num)) :
  1 <= n ->
  retrieveMemories now (unfiltered n) memories
  = (firstn (Z.to_nat n)
       (sort_by less_important (map (with_current_importance now) memories)),
     memories).
Proof.
  intros Hn.
  assert (Hz : (n =? 0) = false) by (apply Z.eqb_neq; lia).
  assert (Hneg : (n <? 0) = false) by (apply Z.ltb_ge; lia).
  unfold retrieveMemories, bind, read, ret, ranked, slice0, limit_or_10,
    unfiltered.
  cbn [q_limit]. rewrite Hz, Hneg.
  rewrite filter_all by reflexivity. reflexivity.
Qed.

Lemma less_important_binary64 (a b : RankedMemory float) :
  is_number a -> is_number b ->
  less_important a b
  = PrimFloat.ltb (current_importance a) (current_importance b).
Proof.
  intros Ha Hb.
  change (less_important a b)
    with (PrimFloat.ltb 0
            (PrimFloat.sub (current_importance b) (current_importance a))).
  now apply sub_positive.
Qed.

Lemma less_important_true_binary64 (a b : RankedMemory float) :
  is_number a -> is_number b ->
  less_important a b = true -> non_increasing_binary64 b a.
Proof.
  intros Ha Hb. rewrite less_important_binary64 by assumption.
  apply ltb_leb.
Qed.

Lemma less_important_false_binary64 (a b : RankedMemory float) :
  is_number a -> is_number b ->
  less_important a b = false -> non_increasing_binary64 a b.
Proof.
  intros Ha Hb. rewrite less_important_binary64 by assumption.
  now apply not_ltb_leb.
Qed.

(** C5.  With no filter and a limit [n >= 1], [retrieveMemories] returns at
    most [n] records ([n] of them, or all when the store has fewer); every
    returned entry is a record of the store with its [calculateDecay] at the
    time of the call, the result is an initial part of a rearrangement of the
    whole store, and the store itself is left as it was.  The result is in
    order of non-increasing [current_importance]: in exact arithmetic for
    every store, and on doubles for every store in which no effective
    importance is NaN. *)
Theorem retrieveMemories_ranked :
  (forall (num : Type) (N : JSNumber num) (now n : Z)
          (memories : list (MemoryRecord num)),
      1 <= n ->
      let result := fst (retrieveMemories now (unfiltered n) memories) in
      Z.of_nat (List.length result) <= n
      /\ List.length result = Nat.min (Z.to_nat n) (List.length memories)
      /\ (forall r, In r result ->
            In (memory_of r) memories
            /\ current_importance r = calculateDecay now (memory_of r))
      /\ (exists rest,
            Permutation (result ++ rest)
              (map (with_current_importance now) memories))
      /\ snd (retrieveMemories now (unfiltered n) memories) = memories)
  /\ (forall (now n : Z) (memories : list (MemoryRecord Q)),
        1 <= n ->
        StronglySorted non_increasing
          (fst (retrieveMemories now (unfiltered n) memories)))
  /\ (forall (now n : Z) (memories : list (MemoryRecord float)),
        1 <= n ->
        Forall is_number (map (with_current_importance now) memories) ->
        Sorted non_increasing_binary64
          (fst (retrieveMemories now (unfiltered n) memories))).
Proof.
  split; [|split].
  - intros num N now n memories Hn result.
    assert (Hresult : result
                      = firstn (Z.to_nat n)
                          (sort_by less_important
                             (map (with_current_importance now) memories)))
      by (unfold result; now rewrite retrieveMemories_unfiltered).
    pose proof (sort_by_perm less_important
                  (map (with_current_importance now) memories)) as Hperm.
    assert (Hlen : List.length result
                   = Nat.min (Z.to_nat n) (List.length memories)).
    { rewrite Hresult, length_firstn, (Permutation_length Hperm), length_map.
      reflexivity. }
    assert (Hin : forall r, In r result ->
                   In r (map (with_current_importance now) memories)).
    { intros r Hr. apply (Permutation_in _ Hperm). rewrite Hresult in Hr.
      rewrite <- (firstn_skipn (Z.to_nat n)). apply in_or_app. now left. }
    split; [lia|]. split; [exact Hlen|]. split; [|split].
    + intros r Hr. apply Hin, in_map_iff in Hr.
      destruct Hr as [m [<- Hm]]. split; [exact Hm | reflexivity].
    + exists (skipn (Z.to_nat n)
                (sort_by less_important
                   (map (with_current_importance now) memories))).
      rewrite Hresult, firstn_skipn. exact Hperm.
    + now rewrite retrieveMemories_unfiltered.
  - intros now n memories Hn. rewrite retrieveMemories_unfiltered by exact Hn.
    cbn [fst]. apply StronglySorted_firstn.
    apply Sorted_StronglySorted; [exact non_increasing_trans|].
    apply (sort_by_sorted less_important (fun _ => True)).
    + intros x y _ _. apply less_important_true.
    + intros x y _ _. apply less_important_false.
    + apply Forall_forall. intros x _. exact I.
  - intros now n memories Hn Hnumbers.
    rewrite retrieveMemories_unfiltered by exact Hn.
    cbn [fst]. apply Sorted_firstn.
    apply (sort_by_sorted less_important is_number).
    + exact less_important_true_binary64.
    + exact less_important_false_binary64.
    + exact Hnumbers.
Qed.

Lemma retrieveMemories_ranked_witness :
  (let result :=
     fst (retrieveMemories (N := binary64) 1700000500000 (unfiltered 1)
            sample_store) in
   Z.of_nat (List.length result) <= 1
   /\ List.length result
      = Nat.min (Z.to_nat 1) (List.length (sample_store (N := binary64)))
   /\ (forall r, In r result ->
         In (memory_of r) sample_store
         /\ current_importance r = calculateDecay 1700000500000 (memory_of r))
   /\ (exists rest,
         Permutation (result ++ rest)
           (map (with_current_importance 1700000500000) sample_store))
   /\ snd (retrieveMemories (N := binary64) 1700000500000 (unfiltered 1)
             sample_store)
      = sample_store)
  /\ StronglySorted non_increasing
       (fst (retrieveMemories (N := exact) 1700000500000 (unfiltered 2)
               sample_store))
  /\ Sorted non_increasing_binary64
       (fst (retrieveMemories (N := binary64) 1700000500000 (unfiltered 2)
               sample_store)).
Proof.
  split; [|split].
  - apply (proj1 retrieveMemories_ranked float binary64 1700000500000 1
             sample_store). lia.
  - apply (proj1 (proj2 retrieveMemories_ranked) 1700000500000 2 sample_store).
    lia.
  - apply (proj2 (proj2 retrieveMemories_ranked) 1700000500000 2 sample_store).
    + lia.
    + repeat constructor.
Defined.

(** ** Invariants of the store *)

Section Invariant.

Context {num : Type} {N : JSNumber num}.

Variable ok : MemoryRecord num -> Prop.

Hypothesis ok_created :
  forall (m : MemoryRecord num) content',
    importance_score m = detectImportance content' -> usage_count m = 1 -> ok m.
Hypothesis ok_strengthen : forall now m, ok m -> ok (strengthen now m).
Hypothesis ok_consolidate : forall m, ok m -> ok (mark_processed (reinforce m)).

Lemma update_first_ok p now (memories : list (MemoryRecord num)) :
  Forall ok memories ->
  match update_first p (strengthen now) memories with
  | Some (found, memories') => ok found /\ Forall ok memories'
  | None => True
  end.
Proof.
  induction 1 as [|m rest Hm Hrest IH]; simpl.
  - exact I.
  - destruct (p m).
    + split; [|constructor]; auto.
    + destruct (update_first p (strengthen now) rest) as [[found rest']|];
        [|exact I].
      destruct IH as [Hfound Hrest']. split; [|constructor]; auto.
Qed.

Lemma accessMemory_ok now memoryId (memories : list (MemoryRecord num)) :
  Forall ok memories ->
  Forall ok (snd (accessMemory now memoryId memories))
  /\ forall r, fst (accessMemory now memoryId memories) = Some r -> ok r.
Proof.
  intros Hall. unfold accessMemory, find_and_update.
  pose proof (update_first_ok (fun m => String.eqb (id m) memoryId) now
                memories Hall) as Hupd.
  destruct (update_first _ _ memories) as [[found rest']|]; simpl.
  - split; [apply Hupd|]. intros r Hr. injection Hr as <-. apply Hupd.
  - split; [exact Hall|]. discriminate.
Qed.

Lemma call_ok (memories memories' : list (MemoryRecord num)) :
  call memories memories' -> Forall ok memories -> Forall ok memories'.
Proof.
  intros Hcall Hall. destruct Hcall; try exact Hall.
  - unfold createMemory, bind, push, ret. cbn [snd].
    apply Forall_app. split; [exact Hall|].
    constructor; [|constructor].
    now apply (ok_created _ content').
  - now apply accessMemory_ok.
  - rewrite dreamStateProcessing_map. simpl.
    apply Forall_map. revert Hall. apply Forall_impl. exact ok_consolidate.
Qed.

Lemma reachable_ok (memories : list (MemoryRecord num)) :
  reachable memories -> Forall ok memories.
Proof.
  induction 1 as [|memories memories' _ IH Hcall].
  - constructor.
  - now apply (call_ok memories).
Qed.

Lemma reachable_invariant (memories : list (MemoryRecord num)) :
  reachable memories -> invariant_at ok memories.
Proof.
  intros Hreach. pose proof (reachable_ok memories Hreach) as Hall.
  split; [exact Hall|]. split; [|split].
  - intros memories' Hcall. now apply (call_ok memories).
  - intros now rnd title' content' emotion sourceType writeMethod.
    unfold createMemory, bind, push, ret. cbn [fst].
    now apply (ok_created _ content').
  - intros now memoryId r. now apply accessMemory_ok.
Qed.

End Invariant.

(** *** In exact arithmetic *)

Lemma created_well_scored (m : MemoryRecord Q) content' :
  importance_score m = detectImportance content' ->
  usage_count m = 1 ->
  well_scored m.
Proof.
  intros Hscore Hcount. unfold well_scored. rewrite Hscore, Hcount.
  pose proof (detectImportance_range content') as [Hlo Hhi].
  split; [split|]; try lia; lra.
Qed.

Lemma strengthen_well_scored now (m : MemoryRecord Q) :
  well_scored m -> well_scored (strengthen now m).
Proof.
  intros [[Hlo Hhi] Hcount]. unfold well_scored. simpl. repeat split.
  - apply Q.min_glb; lra.
  - apply Q.le_min_l.
  - lia.
Qed.

Lemma consolidate_well_scored (m : MemoryRecord Q) :
  well_scored m -> well_scored (mark_processed (reinforce m)).
Proof.
  intros [[Hlo Hhi] Hcount]. unfold well_scored, reinforce.
  destruct (3 <? usage_count m); simpl; repeat split; try assumption.
  - apply Q.min_glb; lra.
  - apply Q.le_min_l.
Qed.

(** *** On doubles *)

(** The two boosts: [Math.min(1, score + step)] for a positive [step]. *)
Lemma boost_unit_interval (score step : float) :
  unit_interval score ->
  PrimFloat.leb 0 step = true ->
  unit_interval (Math_min (lit 1) (add score step)).
Proof.
  intros [Hlo _] Hstep.
  change (unit_interval (Binary64.min 1 (PrimFloat.add score step))).
  apply min_one_unit_interval. rewrite add_spec.
  apply SFadd_nonneg; now apply zero_leb_nonneg.
Qed.

(** Every score [detectImportance] can return, checked one by one. *)
Lemma score_of_counts_unit_interval (k e : nat) (long very_long : bool) :
  (k <= 11)%nat -> (e <= 7)%nat ->
  unit_interval (score_of_counts (N := binary64) k e long very_long).
Proof.
  intros Hk He.
  assert (Hall : forallb
                   (fun k =>
                      forallb
                        (fun e =>
                           forallb
                             (fun flags : bool * bool =>
                                in_unit_interval
                                  (score_of_counts (N := binary64) k e
                                     (fst flags) (snd flags)))
                             [(true, true); (true, false);
                              (false, true); (false, false)])
                        (seq 0 8))
                   (seq 0 12) = true)
    by (vm_compute; reflexivity).
  rewrite forallb_forall in Hall.
  specialize (Hall k). rewrite in_seq, forallb_forall in Hall.
  specialize (Hall ltac:(lia) e). rewrite in_seq, forallb_forall in Hall.
  specialize (Hall ltac:(lia) (long, very_long)).
  unfold in_unit_interval in Hall. cbn [fst snd] in Hall.
  apply andb_prop. apply Hall.
  destruct long, very_long; simpl; tauto.
Qed.

Lemma created_well_scored_binary64 (m : MemoryRecord float) content' :
  importance_score m = detectImportance content' ->
  usage_count m = 1 ->
  well_scored_binary64 m.
Proof.
  intros Hscore Hcount. unfold well_scored_binary64.
  rewrite Hscore, Hcount, detectImportance_counts.
  split; [|lia].
  apply score_of_counts_unit_interval; apply matches_bound.
Qed.

Lemma strengthen_well_scored_binary64 now (m : MemoryRecord float) :
  well_scored_binary64 m -> well_scored_binary64 (strengthen now m).
Proof.
  intros [Hscore Hcount]. unfold well_scored_binary64.
  cbn [importance_score usage_count strengthen]. split; [|lia].
  apply boost_unit_interval; [exact Hscore | reflexivity].
Qed.

Lemma consolidate_well_scored_binary64 (m : MemoryRecord float) :
  well_scored_binary64 m -> well_scored_binary64 (mark_processed (reinforce m)).
Proof.
  intros [Hscore Hcount]. unfold well_scored_binary64, reinforce.
  destruct (3 <? usage_count m);
    cbn [importance_score usage_count mark_processed]; split; try assumption.
  apply boost_unit_interval; [exact Hscore | reflexivity].
Qed.

(** C9.  In every store the manager can reach from the empty one by calls of
    its methods, [createMemory] and [accessMemory] among them, every record
    has [importance_score] between 0 and 1 and [usage_count] at least 1; each
    single call preserves this, and the record [createMemory] adds and the
    record [accessMemory] returns have it.  This holds in exact arithmetic
    and on doubles, where the score is moreover never NaN. *)
Theorem store_well_scored :
  (forall memories : list (MemoryRecord Q),
      reachable memories -> invariant_at well_scored memories)
  /\ (forall memories : list (MemoryRecord float),
        reachable memories -> invariant_at well_scored_binary64 memories).
Proof.
  split; intros memories Hreach.
  - apply reachable_invariant; [| | |exact Hreach].
    + exact created_well_scored.
    + exact strengthen_well_scored.
    + exact consolidate_well_scored.
  - apply reachable_invariant; [| | |exact Hreach].
    + exact created_well_scored_binary64.
    + exact strengthen_well_scored_binary64.
    + exact consolidate_well_scored_binary64.
Qed.

Lemma sample_store_reachable {num : Type} {N : JSNumber num} :
  reachable (sample_store (N := N)).
Proof.
  apply (reachable_call
           (snd (createMemory 1700000000000 "k3j9x0q2a" "door code" scenario
                   (Some anxious) None None []))).
  - apply (reachable_call []); constructor.
  - exact (call_createMemory 1700000000001 "p0o9i8u7y" "" "" None None None
             (snd (createMemory 1700000000000 "k3j9x0q2a" "door code" scenario
                     (Some anxious) None None []))).
Defined.

Lemma store_well_scored_witness :
  invariant_at well_scored sample_store
  /\ invariant_at well_scored_binary64 sample_store.
Proof.
  split.
  - apply (proj1 store_well_scored sample_store). exact sample_store_reachable.
  - apply (proj2 store_well_scored sample_store). exact sample_store_reachable.
Defined.

(** * Further properties

    Properties of the methods beyond the statements above, read off the
    source: ranges and edge cases of the scoring functions, the tags, the
    filters of a query, the frame of an access, the statistics, and how the
    methods compose. *)

(** ** calculateImportance *)

(** X1.  In exact arithmetic [calculateImportance] never exceeds 1; for
    factors between 0 and 1 it is the weighted sum 0.3 e + 0.2 u + 0.2 r +
    0.3 c itself, which the clamp does not touch, and is not negative; there
    is no lower clamp, so a negative weighted sum is returned as it is. *)
Theorem calculateImportance_weighted_sum :
  (forall e u r c : Q,
      calculateImportance e u r c <= 1)%Q
  /\ (forall e u r c : Q,
        0 <= e <= 1 -> 0 <= u <= 1 -> 0 <= r <= 1 -> 0 <= c <= 1 ->
        calculateImportance e u r c == e * 0.3 + u * 0.2 + r * 0.2 + c * 0.3
        /\ 0 <= calculateImportance e u r c)%Q
  /\ (forall e u r c : Q,
        e * 0.3 + u * 0.2 + r * 0.2 + c * 0.3 < 0 ->
        calculateImportance e u r c < 0)%Q.
Proof.
  unfold calculateImportance. cbn [lit add mul Math_min exact].
  split; [|split].
  - intros. apply Q.le_min_l.
  - intros e u r c He Hu Hr Hc.
    destruct (Q.min_spec 1 (e * 0.3 + u * 0.2 + r * 0.2 + c * 0.3))
      as [[Hlt Heq] | [Hle Heq]]; rewrite Heq; split; lra.
  - intros e u r c Hneg.
    destruct (Q.min_spec 1 (e * 0.3 + u * 0.2 + r * 0.2 + c * 0.3))
      as [[Hlt Heq] | [Hle Heq]]; rewrite Heq; lra.
Qed.

Lemma calculateImportance_weighted_sum_witness :
  (calculateImportance (N := exact) 1 0.5 0.5 0
   == 1 * 0.3 + 0.5 * 0.2 + 0.5 * 0.2 + 0 * 0.3
   /\ 0 <= calculateImportance (N := exact) 1 0.5 0.5 0)%Q.
Proof.
  apply (proj1 (proj2 calculateImportance_weighted_sum) 1 0.5 0.5 0)%Q;
    split; vm_compute; discriminate.
Defined.

(** ** calculateDecay *)

Lemma decayedScore_unfold (m : MemoryRecord Q) (d : Q) :
  decayedScore m d
  = Qmax 0 (importance_score m
            - 0.05 * (1 - Qmin 0.8 (inject_Z (usage_count m) * 0.1)
                        - getEmotionalWeight (emotion_name (emotion_flag m)) * 0.2)
              * d)%Q.
Proof. reflexivity. Qed.

Lemma days_nonneg (last now : Z) :
  last <= now -> (0 <= inject_Z (now - last) / inject_Z msPerDay)%Q.
Proof.
  intros Hle. unfold Qdiv. apply Qmult_le_0_compat.
  - change 0%Q with (inject_Z 0). rewrite <- Zle_Qle. lia.
  - vm_compute. discriminate.
Qed.

Lemma calculateDecay_nonneg (now : Z) (m : MemoryRecord Q) :
  (0 <= calculateDecay now m)%Q.
Proof.
  unfold calculateDecay. rewrite decayedScore_unfold. apply Q.le_max_l.
Qed.

Lemma calculateDecay_le_score (now : Z) (m : MemoryRecord Q) :
  last_accessed m <= now -> (0 <= importance_score m)%Q ->
  (calculateDecay now m <= importance_score m)%Q.
Proof.
  unfold calculateDecay. rewrite decayedScore_unfold.
  pose proof (effectiveDecay_positive m) as Hrate.
  set (rate := (0.05 * (1 - Qmin 0.8 (inject_Z (usage_count m) * 0.1)
                        - getEmotionalWeight (emotion_name (emotion_flag m))
                          * 0.2))%Q) in *.
  intros Hnow Hscore. pose proof (days_nonneg _ _ Hnow) as Hd.
  cbn [ofZ div exact].
  set (d := (inject_Z (now - last_accessed m) / inject_Z msPerDay)%Q) in *.
  assert (0 <= rate * d)%Q by (apply Qmult_le_0_compat; lra).
  apply Q.max_lub; lra.
Qed.

(** X2.  In exact arithmetic the decayed score is never negative, never
    above the stored score of a record last accessed in the past, equal to
    the stored score at the moment of the access, and 0 for a negative
    stored score. *)
Theorem calculateDecay_range (now : Z) (m : MemoryRecord Q) :
  (0 <= calculateDecay now m)%Q
  /\ (last_accessed m <= now -> (0 <= importance_score m)%Q ->
      (calculateDecay now m <= importance_score m)%Q)
  /\ ((0 <= importance_score m)%Q ->
      (calculateDecay (last_accessed m) m == importance_score m)%Q)
  /\ (last_accessed m <= now -> (importance_score m < 0)%Q ->
      (calculateDecay now m == 0)%Q).
Proof.
  split; [apply calculateDecay_nonneg|].
  split; [apply calculateDecay_le_score|].
  unfold calculateDecay. rewrite !decayedScore_unfold.
  pose proof (effectiveDecay_positive m) as Hrate.
  set (rate := (0.05 * (1 - Qmin 0.8 (inject_Z (usage_count m) * 0.1)
                        - getEmotionalWeight (emotion_name (emotion_flag m))
                          * 0.2))%Q) in *.
  split.
  - intros Hscore. cbn [ofZ div exact]. rewrite Z.sub_diag.
    set (d := (inject_Z 0 / inject_Z msPerDay)%Q).
    assert (Hd : (d == 0)%Q) by (vm_compute; reflexivity).
    assert (Hrd : (rate * d == 0)%Q) by (rewrite Hd; lra).
    destruct (Q.max_spec 0 (importance_score m - rate * d))
      as [[Hlt Heq] | [Hle Heq]]; rewrite Heq; lra.
  - intros Hnow Hscore. pose proof (days_nonneg _ _ Hnow) as Hd.
    cbn [ofZ div exact].
    set (d := (inject_Z (now - last_accessed m) / inject_Z msPerDay)%Q) in *.
    assert (0 <= rate * d)%Q by (apply Qmult_le_0_compat; lra).
    apply Q.max_l. lra.
Qed.

Lemma calculateDecay_range_witness :
  (calculateDecay (N := exact) 864000000 decay_scenario_record
   <= importance_score decay_scenario_record)%Q
  /\ (calculateDecay (N := exact) 0 decay_scenario_record
      == importance_score decay_scenario_record)%Q.
Proof.
  split.
  - apply (proj1 (proj2 (calculateDecay_range 864000000 decay_scenario_record))).
    + vm_compute. discriminate.
    + vm_compute. discriminate.
  - apply (proj1 (proj2 (proj2 (calculateDecay_range 0 decay_scenario_record)))).
    vm_compute. discriminate.
Defined.



(** ** detectImportance *)




Lemma counts_forall (f : nat -> nat -> bool -> bool -> bool) :
  forallb
    (fun k =>
       forallb
         (fun e => f k e true true && f k e true false
                   && f k e false true && f k e false false)
         (seq 0 8))
    (seq 0 12) = true ->
  forall k e long very_long,
    (k <= 11)%nat -> (e <= 7)%nat -> f k e long very_long = true.
Proof.
  intros Hall k e long very_long Hk He.
  rewrite forallb_forall in Hall.
  specialize (Hall k). rewrite in_seq, forallb_forall in Hall.
  specialize (Hall ltac:(lia) e). rewrite in_seq in Hall.
  specialize (Hall ltac:(lia)).
  apply andb_prop in Hall as [Hall Hff].
  apply andb_prop in Hall as [Hall Hft].
  apply andb_prop in Hall as [Htt Htf].
  destruct long, very_long; assumption.
Qed.

(** X5.  The detected importance lies between 0.3 and 1, in exact
    arithmetic and on doubles; four importance keywords saturate it at 1;
    and a content of at most 200 characters without any keyword scores the
    base 0.3. *)
Theorem detectImportance_saturates :
  (forall content : string,
      0.3 <= detectImportance (N := exact) content <= 1)%Q
  /\ (forall content : string,
        PrimFloat.leb (lit 0.3) (detectImportance (N := binary64) content) = true
        /\ PrimFloat.leb (detectImportance (N := binary64) content) 1 = true)
  /\ (forall content : string,
        (4 <= matches content importanceKeywords)%nat ->
        (detectImportance (N := exact) content == 1)%Q
        /\ detectImportance (N := binary64) content = 1%float)
  /\ (forall content : string,
        matches content importanceKeywords = 0%nat ->
        matches content emotionalKeywords = 0%nat ->
        (String.length content <= 200)%nat ->
        (detectImportance (N := exact) content == 0.3)%Q
        /\ detectImportance (N := binary64) content = lit 0.3).
Proof.
  split; [exact detectImportance_range|]. split; [|split].
  - intros content. rewrite detectImportance_counts.
    apply andb_prop.
    apply (counts_forall
             (fun k e l v =>
                PrimFloat.leb (lit 0.3) (score_of_counts (N := binary64) k e l v)
                && PrimFloat.leb (score_of_counts (N := binary64) k e l v) 1));
      try apply matches_bound.
    vm_compute. reflexivity.
  - intros content Hk. split.
    + rewrite detectImportance_exact. unfold detectImportance_spec, formula_of_counts.
      assert (H4 : (4 <= inject_Z (Z.of_nat (matches content importanceKeywords)))%Q)
        by (change 4%Q with (inject_Z 4); rewrite <- Zle_Qle; lia).
      assert (He : (0 <= inject_Z (Z.of_nat (matches content emotionalKeywords)))%Q)
        by (change 0%Q with (inject_Z 0); rewrite <- Zle_Qle; lia).
      apply Q.min_l.
      destruct (Nat.ltb 200 (String.length content));
        destruct (Nat.ltb 500 (String.length content)); lra.
    + rewrite detectImportance_counts.
      apply FloatAxioms.Leibniz.eqb_spec.
      pose proof (counts_forall
                    (fun k e l v =>
                       Nat.ltb k 4
                       || PrimFloat.Leibniz.eqb
                            (score_of_counts (N := binary64) k e l v) 1)
                    ltac:(vm_compute; reflexivity)
                    (matches content importanceKeywords)
                    (matches content emotionalKeywords)
                    (Nat.ltb 200 (String.length content))
                    (Nat.ltb 500 (String.length content))
                    (matches_bound content importanceKeywords)
                    (matches_bound content emotionalKeywords)) as Hsat.
      apply orb_prop in Hsat as [Hlow | Hsat]; [|exact Hsat].
      apply Nat.ltb_lt in Hlow. lia.
  - intros content Hk He Hlen. rewrite !detectImportance_counts, Hk, He.
    assert (H200 : Nat.ltb 200 (String.length content) = false)
      by (apply Nat.ltb_ge; lia).
    assert (H500 : Nat.ltb 500 (String.length content) = false)
      by (apply Nat.ltb_ge; lia).
    rewrite H200, H500. split; vm_compute; reflexivity.
Qed.

Lemma detectImportance_saturates_witness :
  (detectImportance (N := exact) saturated == 1)%Q
  /\ detectImportance (N := binary64) saturated = 1%float.
Proof.
  apply (proj1 (proj2 (proj2 detectImportance_saturates)) saturated).
  vm_compute. repeat constructor.
Defined.

(** ** calculateDecay on doubles *)

Lemma ltb_asym (x y : float) :
  PrimFloat.ltb x y = true -> PrimFloat.ltb y x = false.
Proof.
  rewrite !ltb_spec. unfold SFltb.
  rewrite (SFcompare_antisym (Prim2SF x) (Prim2SF y)).
  now destruct (SFcompare (Prim2SF x) (Prim2SF y)) as [[| |]|].
Qed.

Lemma max_zero_floor (x : float) :
  PrimFloat.ltb (Binary64.max 0 x) 0 = false
  /\ (PrimFloat.is_nan (Binary64.max 0 x) = false ->
      PrimFloat.leb 0 (Binary64.max 0 x) = true
      /\ PrimFloat.is_nan x = false
      /\ PrimFloat.leb x (Binary64.max 0 x) = true).
Proof.
  unfold Binary64.max.
  change (PrimFloat.is_nan 0) with false. cbn [orb].
  destruct (PrimFloat.is_nan x) eqn:Hn; cbn iota.
  - split; [reflexivity|]. intros H. vm_compute in H. discriminate.
  - destruct (PrimFloat.ltb 0 x) eqn:H1; cbn iota.
    + split; [now apply ltb_asym|]. intros _.
      split; [now apply ltb_leb|]. split; [reflexivity|].
      apply not_ltb_leb; try assumption.
      destruct (PrimFloat.ltb x x) eqn:Hxx; [|reflexivity].
      pose proof (ltb_asym x x Hxx). congruence.
    + assert (Hle : PrimFloat.leb x 0 = true)
        by (apply not_ltb_leb; [reflexivity | assumption | assumption]).
      destruct (PrimFloat.ltb x 0) eqn:H2; cbn iota.
      * split; [reflexivity|]. intros _. repeat split; assumption.
      * change (Binary64.is_neg_zero 0) with false. cbn iota.
        split; [reflexivity|]. intros _. repeat split; assumption.
Qed.

Lemma SFcompare_self (y : spec_float) :
  y <> S754_nan -> SFcompare y y = Some Eq.
Proof.
  destruct y as [s|s| |s m e]; cbn [SFcompare]; intros Hy.
  - reflexivity.
  - now destruct s.
  - contradiction.
  - destruct s; rewrite Z.compare_refl, Pos.compare_cont_refl; reflexivity.
Qed.

Lemma ltb_number (x y : float) :
  PrimFloat.ltb x y = true -> PrimFloat.is_nan y = false.
Proof.
  unfold PrimFloat.is_nan. rewrite ltb_spec, eqb_spec. unfold SFltb, SFeqb.
  intros Hlt. rewrite SFcompare_self; [reflexivity|].
  intros Hy. rewrite Hy in Hlt.
  destruct (Prim2SF x) as [sx|sx| |sx mx ex]; discriminate Hlt.
Qed.

(** X6.  On doubles the decayed score is never below 0: it is NaN or
    at least 0.  It is a number whenever it exceeds 0.1, that is, for every
    record [getMemoryStats] counts as active. *)
Theorem calculateDecay_floor_binary64 (now : Z) (m : MemoryRecord float) :
  PrimFloat.ltb (calculateDecay now m) 0 = false
  /\ (PrimFloat.is_nan (calculateDecay now m) = false ->
      PrimFloat.leb 0 (calculateDecay now m) = true)
  /\ (gtb (calculateDecay now m) (lit 0.1) = true ->
      PrimFloat.is_nan (calculateDecay now m) = false
      /\ PrimFloat.leb 0 (calculateDecay now m) = true).
Proof.
  assert (Hzero : lit (JSNumber := binary64) 0 = 0%float)
    by (vm_compute; reflexivity).
  unfold calculateDecay, decayedScore. cbn [Math_max binary64].
  rewrite Hzero.
  match goal with
  | |- context [Binary64.max 0 ?x] =>
      destruct (max_zero_floor x) as [Hlow Hnum]
  end.
  split; [exact Hlow|]. split.
  - intros Hn. now apply Hnum.
  - intros Hactive. unfold gtb in Hactive. cbn [ltb binary64] in Hactive.
    apply ltb_number in Hactive. split; [exact Hactive|]. now apply Hnum.
Qed.

Lemma calculateDecay_floor_binary64_witness :
  PrimFloat.is_nan (calculateDecay (N := binary64) 1700000500000 scenario_record)
  = false
  /\ PrimFloat.leb 0 (calculateDecay (N := binary64) 1700000500000 scenario_record)
     = true.
Proof.
  apply (proj2 (proj2 (calculateDecay_floor_binary64 1700000500000
                         scenario_record))).
  vm_compute. reflexivity.
Defined.

(** ** getEmotionalWeight *)

(** X7.  For a string that names no inherited member of the weight
    table: if it names none of the seven emotions it weighs 0.3, the
    fallback of [||], in every arithmetic; and its weight lies between 0.3
    and 0.9, in exact arithmetic and on doubles. *)
Theorem getEmotionalWeight_fallback (emotion : string) :
  inherited emotion = false ->
  (forall {num : Type} {N : JSNumber num},
     (forall e : Emotion, emotion_name e <> emotion) ->
     getEmotionalWeight (num := num) emotion = lit 0.3)
  /\ (0.3 <= getEmotionalWeight (N := exact) emotion <= 0.9)%Q
  /\ PrimFloat.leb (lit 0.3) (getEmotionalWeight (N := binary64) emotion) = true
  /\ PrimFloat.leb (getEmotionalWeight (N := binary64) emotion) (lit 0.9) = true.
Proof.
  intros _. split; [|split; [|split]].
  - intros num N Hno. unfold getEmotionalWeight, emotionalWeights, lookup.
    destruct (String.eqb_spec "happy" emotion) as [H|_]; [now destruct (Hno happy)|].
    destruct (String.eqb_spec "excited" emotion) as [H|_]; [now destruct (Hno excited)|].
    destruct (String.eqb_spec "anxious" emotion) as [H|_]; [now destruct (Hno anxious)|].
    destruct (String.eqb_spec "angry" emotion) as [H|_]; [now destruct (Hno angry)|].
    destruct (String.eqb_spec "sad" emotion) as [H|_]; [now destruct (Hno sad)|].
    destruct (String.eqb_spec "curious" emotion) as [H|_]; [now destruct (Hno curious)|].
    destruct (String.eqb_spec "neutral" emotion) as [H|_]; [now destruct (Hno neutral)|].
    reflexivity.
  - unfold getEmotionalWeight, emotionalWeights, lookup.
    repeat (destruct (String.eqb _ emotion); [vm_compute; split; discriminate|]).
    vm_compute; split; discriminate.
  - unfold getEmotionalWeight, emotionalWeights, lookup.
    repeat (destruct (String.eqb _ emotion); [vm_compute; reflexivity|]).
    vm_compute; reflexivity.
  - unfold getEmotionalWeight, emotionalWeights, lookup.
    repeat (destruct (String.eqb _ emotion); [vm_compute; reflexivity|]).
    vm_compute; reflexivity.
Qed.

Lemma getEmotionalWeight_fallback_witness :
  getEmotionalWeight (N := binary64) "bored" = lit 0.3.
Proof.
  apply (proj1 (getEmotionalWeight_fallback "bored" eq_refl) float binary64).
  intros e. destruct e; discriminate.
Defined.

(** ** The ids of createMemory *)

Lemma to_int_nonnil (z : Z) :
  Z.to_int z <> Decimal.Pos Decimal.Nil
  /\ Z.to_int z <> Decimal.Neg Decimal.Nil.
Proof.
  destruct z as [|p|p]; simpl; split; try discriminate;
    intros [= H]; now apply DecimalPos.Unsigned.to_uint_nonnil in H.
Qed.

Lemma decimal_injective (z z' : Z) : decimal z = decimal z' -> z = z'.
Proof.
  unfold decimal. intros H.
  apply DecimalZ.to_int_inj.
  destruct (to_int_nonnil z) as [Hp Hn], (to_int_nonnil z') as [Hp' Hn'].
  pose proof (NilZero.isi _ Hp Hn) as Hz.
  pose proof (NilZero.isi _ Hp' Hn') as Hz'.
  rewrite H in Hz. congruence.
Qed.

Lemma string_of_uint_chars (d : Decimal.uint) :
  underscore_free (NilEmpty.string_of_uint d).
Proof.
  unfold underscore_free.
  induction d; simpl; intros H; try (destruct H as [H | H]; [discriminate H | auto]);
    auto.
Qed.

Lemma decimal_underscore_free (z : Z) : underscore_free (decimal z).
Proof.
  unfold decimal, NilZero.string_of_int, NilZero.string_of_uint, underscore_free.
  destruct (Z.to_int z) as [d | d].
  - destruct d; try apply string_of_uint_chars.
    simpl. intros [H | []]. discriminate H.
  - simpl. intros [H | H]; [discriminate H|].
    destruct d; try (now apply string_of_uint_chars in H).
    simpl in H. destruct H as [H | []]. discriminate H.
Qed.

Lemma split_at_underscore (d d' r r' : string) :
  underscore_free d -> underscore_free d' ->
  String.append d (String "_" r) = String.append d' (String "_" r') ->
  d = d' /\ r = r'.
Proof.
  unfold underscore_free. revert d'.
  induction d as [|c d IH]; intros [|c' d'] Hd Hd' H; simpl in *.
  - injection H as ->. now split.
  - injection H as <- _. exfalso. apply Hd'. now left.
  - injection H as -> _. exfalso. apply Hd. now left.
  - injection H as -> H. apply IH in H as [-> ->]; [now split | |]; tauto.
Qed.

(** X8.  The id of a new memory starts with mem_, and the ids of two
    new memories agree exactly when both the clock value and the random
    suffix agree. *)
Theorem createMemory_id {num : Type} {N : JSNumber num}
    now rnd title' content' emotion sourceType writeMethod
    now' rnd' title'' content'' emotion' sourceType' writeMethod'
    (memories memories' : list (MemoryRecord num)) :
  let created :=
    fst (createMemory now rnd title' content' emotion sourceType writeMethod
           memories) in
  let created' :=
    fst (createMemory now' rnd' title'' content'' emotion' sourceType'
           writeMethod' memories') in
  String.prefix "mem_" (id created) = true
  /\ (id created = id created' <-> now = now' /\ rnd = rnd').
Proof.
  unfold createMemory, bind, push, ret. cbn [fst id].
  split. { simpl. now destruct (String.append (decimal now) _). } split.
  - intros H. simpl in H. injection H as H.
    apply split_at_underscore in H as [Hd ->]; try apply decimal_underscore_free.
    split; [now apply decimal_injective | reflexivity].
  - now intros [-> ->].
Qed.

(** ** extractContextTags *)

Lemma bump_count (word key : string) (o : list (string * Z)) :
  count_at key (bump word o)
  = count_at key o + (if String.eqb word key then 1 else 0).
Proof.
  induction o as [|[k n] rest IH]; simpl.
  - destruct (String.eqb word key); lia.
  - destruct (String.eqb_spec k word) as [-> | Hkw]; simpl.
    + destruct (String.eqb word key); lia.
    + destruct (String.eqb_spec k key) as [-> | Hkk].
      * destruct (String.eqb_spec word key); [congruence | lia].
      * exact IH.
Qed.

Lemma bump_keys (word key : string) (o : list (string * Z)) :
  In key (map fst (bump word o)) <-> key = word \/ In key (map fst o).
Proof.
  induction o as [|[k n] rest IH]; simpl.
  - intuition.
  - destruct (String.eqb_spec k word) as [-> | Hkw]; simpl.
    + intuition.
    + rewrite IH. intuition.
Qed.

Lemma bump_NoDup (word : string) (o : list (string * Z)) :
  NoDup (map fst o) -> NoDup (map fst (bump word o)).
Proof.
  induction o as [|[k n] rest IH]; simpl; intros Hnd.
  - repeat constructor. intros [].
  - inversion Hnd as [|k' l' Hnotin Hrest]; subst.
    destruct (String.eqb_spec k word) as [-> | Hkw]; simpl.
    + now constructor.
    + constructor; [|now apply IH].
      rewrite bump_keys. intros [-> | Hin]; [congruence | contradiction].
Qed.

Lemma tally_count (words : list string) (key : string) o :
  count_at key (tally words o)
  = count_at key o + Z.of_nat (count_occ string_dec words key).
Proof.
  unfold tally. revert o. induction words as [|w ws IH]; intros o; simpl.
  - lia.
  - rewrite IH, bump_count.
    destruct (string_dec w key) as [-> | Hne].
    + rewrite String.eqb_refl. lia.
    + destruct (String.eqb_spec w key); [contradiction | lia].
Qed.

Lemma tally_keys (words : list string) (key : string) o :
  In key (map fst (tally words o)) <-> In key words \/ In key (map fst o).
Proof.
  unfold tally. revert o. induction words as [|w ws IH]; intros o; simpl.
  - intuition.
  - rewrite IH, bump_keys. intuition.
Qed.

Lemma tally_NoDup (words : list string) o :
  NoDup (map fst o) -> NoDup (map fst (tally words o)).
Proof.
  unfold tally. revert o. induction words as [|w ws IH]; intros o Hnd; simpl.
  - exact Hnd.
  - apply IH. now apply bump_NoDup.
Qed.

Lemma count_at_In (key : string) (n : Z) (o : list (string * Z)) :
  NoDup (map fst o) -> In (key, n) o -> count_at key o = n.
Proof.
  induction o as [|[k m] rest IH]; simpl; intros Hnd Hin.
  - contradiction.
  - inversion Hnd as [|k' l' Hnotin Hrest]; subst.
    destruct Hin as [[= -> ->] | Hin].
    + now rewrite String.eqb_refl.
    + destruct (String.eqb_spec k key) as [-> | Hne].
      * exfalso. apply Hnotin. apply in_map_iff. now exists (key, n).
      * now apply IH.
Qed.

Lemma filter_partition_perm {A : Type} (f : A -> bool) (l : list A) :
  Permutation (filter f l ++ filter (fun x => negb (f x)) l) l.
Proof.
  induction l as [|x l IH]; simpl.
  - constructor.
  - destruct (f x); simpl.
    + now constructor.
    + apply Permutation_sym, Permutation_cons_app, Permutation_sym, IH.
Qed.

Lemma Object_entries_perm (o : list (string * Z)) :
  Permutation (Object_entries o) o.
Proof.
  unfold Object_entries.
  rewrite sort_by_perm. apply (filter_partition_perm (fun e => is_index (fst e))).
Qed.

Lemma slice0_firstn {A : Type} (l : list A) (n : nat) :
  slice0 l (Z.of_nat n) = firstn n l.
Proof.
  unfold slice0. destruct (Z.ltb_spec (Z.of_nat n) 0); [lia|].
  now rewrite Nat2Z.id.
Qed.

Lemma firstn_In {A : Type} (n : nat) (l : list A) (x : A) :
  In x (firstn n l) -> In x l.
Proof.
  intros Hin. rewrite <- (firstn_skipn n l). apply in_or_app. now left.
Qed.

Lemma StronglySorted_app_le {A : Type} (R : A -> A -> Prop) (l1 l2 : list A) :
  StronglySorted R (l1 ++ l2) ->
  forall x y, In x l1 -> In y l2 -> R x y.
Proof.
  induction l1 as [|a l1 IH]; simpl; intros Hs x y Hx Hy.
  - contradiction.
  - inversion Hs as [|a' l' Hrest Hall]; subst.
    destruct Hx as [-> | Hx].
    + rewrite Forall_forall in Hall. apply Hall, in_or_app. now right.
    + now apply IH.
Qed.

Lemma word_runs_chars (P : ascii -> Prop) (s cur : string) :
  (forall c, In c (list_ascii_of_string cur) -> P c) ->
  (forall c, In c (list_ascii_of_string s) -> is_word_char c = true -> P c) ->
  forall word, In word (word_runs s cur) ->
    word <> EmptyString /\ forall c, In c (list_ascii_of_string word) -> P c.
Proof.
  revert cur. induction s as [|a s IH]; intros cur Hcur Hs word Hin; simpl in Hin.
  - destruct cur; simpl in Hin; [contradiction|].
    destruct Hin as [<- | []]. split; [discriminate | exact Hcur].
  - destruct (is_word_char a) eqn:Ha.
    + apply IH in Hin; [exact Hin | |].
      * intros c Hc.
        assert (Happ : forall u v,
                  list_ascii_of_string (String.append u v)
                  = list_ascii_of_string u ++ list_ascii_of_string v).
        { induction u as [|b u IHu]; intros v; simpl; [reflexivity|].
          now rewrite IHu. }
        rewrite Happ in Hc. apply in_app_or in Hc as [Hc | Hc].
        -- now apply Hcur.
        -- simpl in Hc. destruct Hc as [<- | []]. apply Hs; [now left | exact Ha].
      * intros c Hc. apply Hs. now right.
    + assert (Hrest : In word (word_runs s EmptyString) ->
                word <> EmptyString
                /\ forall c, In c (list_ascii_of_string word) -> P c).
      { intros Hw. apply (IH EmptyString); [intros c [] | | exact Hw].
        intros c Hc. apply Hs. now right. }
      destruct cur; simpl in Hin; [now apply Hrest|].
      destruct Hin as [<- | Hin]; [|now apply Hrest].
      split; [discriminate | exact Hcur].
Qed.

Lemma lower_ascii_fixed (c : ascii) : lower_ascii (lower_ascii c) = lower_ascii c.
Proof.
  destruct c as [[] [] [] [] [] [] [] []]; reflexivity.
Qed.

Lemma toLowerCase_chars (s : string) (c : ascii) :
  In c (list_ascii_of_string (toLowerCase s)) -> lower_ascii c = c.
Proof.
  induction s as [|a s IH]; simpl; [intros [] |].
  intros [<- | Hin]; [apply lower_ascii_fixed | now apply IH].
Qed.

Lemma toLowerCase_fixed (s : string) :
  (forall c, In c (list_ascii_of_string s) -> lower_ascii c = c) ->
  toLowerCase s = s.
Proof.
  induction s as [|a s IH]; simpl; intros H; [reflexivity|].
  rewrite (H a) by now left. f_equal. apply IH. intros c Hc. apply H. now right.
Qed.

Lemma kept_words_spec (content word : string) :
  In word (kept_words content) <->
  In word (word_runs (toLowerCase content) EmptyString)
  /\ (3 < String.length word)%nat /\ ~ In word commonWords.
Proof.
  unfold kept_words. rewrite filter_In, andb_true_iff, Nat.ltb_lt, negb_true_iff.
  assert (Hex : existsb (String.eqb word) commonWords = false
                <-> ~ In word commonWords).
  { rewrite <- not_true_iff_false, existsb_exists. split.
    - intros H Hin. apply H. exists word. now rewrite String.eqb_refl.
    - intros H [w [Hin Heq]]. apply String.eqb_eq in Heq. now subst. }
  rewrite Hex. reflexivity.
Qed.

Lemma StronglySorted_keys (h : string -> Z) (l : list (string * Z)) :
  StronglySorted (fun a b => snd b <= snd a) l ->
  Forall (fun e => snd e = h (fst e)) l ->
  StronglySorted (fun tag tag' => h tag' <= h tag) (map fst l).
Proof.
  induction 1 as [|e l Hs IH Hhd]; intros Hall; simpl; constructor.
  - apply IH. now inversion Hall.
  - inversion Hall as [|e' l' He Hl]; subst.
    rewrite Forall_forall in *. intros tag Hin.
    apply in_map_iff in Hin as [e' [<- He']].
    rewrite <- He, <- (Hl e' He'). now apply Hhd.
Qed.

Lemma tags_entries (content : string) :
  exists entries : list (string * Z),
    extractContextTags content = map fst (firstn 5 entries)
    /\ NoDup (map fst entries)
    /\ (forall word, In word (map fst entries) <-> In word (kept_words content))
    /\ (forall e, In e entries -> snd e = frequency content (fst e))
    /\ StronglySorted (fun a b => snd b <= snd a) entries.
Proof.
  set (counters := tally (kept_words content) []).
  set (entries := sort_by (fun a b : string * Z => 0 <? snd b - snd a)
                    (Object_entries counters)).
  assert (Hperm : Permutation entries counters).
  { unfold entries. rewrite sort_by_perm. apply Object_entries_perm. }
  assert (Hnd : NoDup (map fst counters)).
  { apply tally_NoDup. constructor. }
  exists entries. split; [|split; [|split; [|split]]].
  - unfold extractContextTags. fold (kept_words content).
    change (fold_left (fun acc word => bump word acc) (kept_words content) [])
      with counters.
    fold entries. exact (f_equal (map fst) (slice0_firstn entries 5)).
  - eapply Permutation_NoDup; [|exact Hnd].
    apply Permutation_sym, Permutation_map, Hperm.
  - intros word. split.
    + intros Hin. eapply Permutation_in in Hin; [|apply Permutation_map, Hperm].
      apply tally_keys in Hin as [Hin | []]. exact Hin.
    + intros Hin. eapply Permutation_in;
        [apply Permutation_sym, Permutation_map, Hperm|].
      apply tally_keys. now left.
  - intros [k n] Hin. simpl.
    eapply Permutation_in in Hin; [|exact Hperm].
    apply (count_at_In k n counters Hnd) in Hin.
    unfold counters in Hin. rewrite tally_count in Hin. simpl in Hin.
    unfold frequency. lia.
  - apply Sorted_StronglySorted.
    + intros a b c Hab Hbc. lia.
    + unfold entries.
      apply (sort_by_sorted _ (fun _ => True) (fun a b => snd b <= snd a)).
      * intros x y _ _ H. apply Z.ltb_lt in H. lia.
      * intros x y _ _ H. apply Z.ltb_ge in H. lia.
      * apply Forall_forall. trivial.
Qed.

(** X9.  For a content whose counted words name no inherited member,
    [extractContextTags] returns at most five distinct kept words in
    non-increasing order of frequency, and a kept word is left out only when
    five tags were found, each at least as frequent. *)
Theorem extractContextTags_top (content : string) :
  plain_words content ->
  let tags := extractContextTags content in
  (List.length tags <= 5)%nat
  /\ NoDup tags
  /\ (forall tag, In tag tags -> In tag (kept_words content))
  /\ StronglySorted
       (fun tag tag' => frequency content tag' <= frequency content tag) tags
  /\ (forall word, In word (kept_words content) -> ~ In word tags ->
        List.length tags = 5%nat
        /\ forall tag, In tag tags ->
             frequency content word <= frequency content tag).
Proof.
  intros _.
  destruct (tags_entries content) as [entries [Htags [Hnd [Hkeys [Hfreq Hsorted]]]]].
  cbv zeta. rewrite Htags.
  assert (Hsplit : entries = firstn 5 entries ++ skipn 5 entries)
    by (symmetry; apply firstn_skipn).
  split; [|split; [|split; [|split]]].
  - rewrite length_map, length_firstn. lia.
  - rewrite Hsplit, map_app in Hnd. eapply NoDup_app_remove_r, Hnd.
  - intros tag Hin. apply Hkeys.
    apply in_map_iff in Hin as [e [<- He]].
    apply in_map, (firstn_In _ _ _ He).
  - apply (StronglySorted_firstn _ 5) in Hsorted.
    assert (Hall : Forall (fun e => snd e = frequency content (fst e))
                     (firstn 5 entries)).
    { apply Forall_forall. intros e He. apply Hfreq, (firstn_In _ _ _ He). }
    exact (StronglySorted_keys _ _ Hsorted Hall).
  - intros word Hkept Hnot.
    apply Hkeys in Hkept. apply in_map_iff in Hkept as [e [Hword He]].
    rewrite Hsplit in He. apply in_app_or in He as [He | He].
    { exfalso. apply Hnot. subst word. now apply in_map. }
    split.
    + rewrite length_map, length_firstn.
      assert (Hlen : (5 < List.length entries)%nat).
      { destruct (Nat.lt_ge_cases 5 (List.length entries)) as [H | H]; [exact H|].
        rewrite skipn_all2 in He by lia. contradiction. }
      lia.
    + intros tag Hin. apply in_map_iff in Hin as [e' [<- He']].
      rewrite Hsplit in Hsorted.
      pose proof (StronglySorted_app_le _ _ _ Hsorted e' e He' He) as Hle.
      simpl in Hle. subst word.
      rewrite <- (Hfreq e), <- (Hfreq e'); [exact Hle | |].
      * apply (firstn_In _ _ _ He').
      * rewrite Hsplit. apply in_or_app. now right.
Qed.

Lemma extractContextTags_top_witness :
  List.length (extractContextTags inventory) = 5%nat
  /\ forall tag, In tag (extractContextTags inventory) ->
       frequency inventory "spanner" <= frequency inventory tag.
Proof.
  apply (proj2 (proj2 (proj2 (proj2 (extractContextTags_top inventory eq_refl))))
           "spanner").
  - vm_compute. repeat (try (left; reflexivity); right).
  - vm_compute. intuition discriminate.
Defined.

Lemma append_assoc (a b c : string) :
  String.append (String.append a b) c = String.append a (String.append b c).
Proof.
  induction a as [|x a IH]; simpl; [reflexivity | now rewrite IH].
Qed.

Lemma append_empty (a : string) : String.append a EmptyString = a.
Proof.
  induction a as [|x a IH]; simpl; [reflexivity | now rewrite IH].
Qed.

Lemma prefix_append (sub post : string) :
  String.prefix sub (String.append sub post) = true.
Proof.
  induction sub as [|x sub IH]; simpl.
  - now destruct post.
  - destruct (ascii_dec x x); [exact IH | contradiction].
Qed.

Lemma prefix_split (sub s : string) :
  String.prefix sub s = true -> exists post, s = String.append sub post.
Proof.
  revert sub. induction s as [|y s IH]; intros [|x sub] H; simpl in H.
  - now exists EmptyString.
  - discriminate.
  - now exists (String y s).
  - destruct (ascii_dec x y) as [-> | _]; [|discriminate].
    apply IH in H as [post ->]. now exists post.
Qed.

(** [includes] finds exactly the substrings. *)
Lemma includes_spec (s sub : string) :
  includes s sub = true
  <-> exists pre post, s = String.append pre (String.append sub post).
Proof.
  split.
  - induction s as [|y s IH]; cbn [includes];
      destruct (String.prefix sub _) eqn:Hp.
    + intros _. apply prefix_split in Hp as [post Hp]. now exists EmptyString, post.
    + discriminate.
    + intros _. apply prefix_split in Hp as [post Hp]. now exists EmptyString, post.
    + intros H. apply IH in H as [pre [post ->]].
      now exists (String y pre), post.
  - intros [pre [post ->]]. induction pre as [|y pre IH].
    + cbn [String.append].
      destruct (String.append sub post) eqn:Heq; cbn [includes];
        rewrite <- Heq; now rewrite prefix_append.
    + cbn [String.append includes]. rewrite IH.
      now destruct (String.prefix sub _).
Qed.

Lemma word_runs_substring (s cur word : string) :
  In word (word_runs s cur) ->
  exists pre post,
    String.append cur s = String.append pre (String.append word post).
Proof.
  revert cur. induction s as [|a s IH]; intros cur Hin; simpl in Hin.
  - destruct cur; simpl in Hin; [contradiction|].
    destruct Hin as [<- | []].
    exists EmptyString, EmptyString. simpl. now rewrite !append_empty.
  - assert (Hrest : In word (word_runs s EmptyString) ->
              exists pre post,
                String.append cur (String a s)
                = String.append pre (String.append word post)).
    { intros Hw. apply IH in Hw as [pre [post Heq]]. simpl in Heq.
      exists (String.append cur (String a pre)), post.
      rewrite append_assoc. simpl. now rewrite Heq. }
    destruct (is_word_char a).
    + apply IH in Hin as [pre [post Heq]].
      exists pre, post. rewrite <- Heq, append_assoc. reflexivity.
    + destruct cur; simpl in Hin; [now apply Hrest|].
      destruct Hin as [<- | Hin]; [|now apply Hrest].
      now exists EmptyString, (String a s).
Qed.

Lemma tag_kept (content tag : string) :
  In tag (extractContextTags content) -> In tag (kept_words content).
Proof.
  intros Hin.
  destruct (tags_entries content) as [entries [Htags [_ [Hkeys _]]]].
  apply Hkeys. rewrite Htags in Hin.
  apply in_map_iff in Hin as [e [<- He]]. apply in_map, (firstn_In _ _ _ He).
Qed.

Lemma word_runs_lower (content word : string) :
  In word (word_runs (toLowerCase content) EmptyString) ->
  toLowerCase word = word
  /\ forall c, In c (list_ascii_of_string word) -> is_word_char c = true.
Proof.
  intros Hrun.
  pose proof (word_runs_chars
                (fun c => is_word_char c = true /\ lower_ascii c = c)
                (toLowerCase content) EmptyString) as Hchars.
  destruct (Hchars (fun c (H : In c []) => match H with end)
              (fun c Hc Hw => conj Hw (toLowerCase_chars content c Hc))
              word Hrun) as [_ Hword].
  split.
  - apply toLowerCase_fixed. intros c Hc. now apply Hword.
  - intros c Hc. now apply Hword.
Qed.

(** X10.  For a content whose counted words name no inherited member,
    every tag is a lower-case word of the content: a run of word characters
    longer than three characters that is not a common word, that the
    lower-cased content includes, and that was counted at least once. *)
Theorem extractContextTags_words (content tag : string) :
  plain_words content ->
  In tag (extractContextTags content) ->
  (3 < String.length tag)%nat
  /\ ~ In tag commonWords
  /\ toLowerCase tag = tag
  /\ (forall c, In c (list_ascii_of_string tag) -> is_word_char c = true)
  /\ includes (toLowerCase content) tag = true
  /\ 1 <= frequency content tag.
Proof.
  intros _ Hin. apply tag_kept in Hin.
  pose proof Hin as Hfreq. apply (count_occ_In string_dec) in Hfreq.
  apply kept_words_spec in Hin as [Hrun [Hlen Hcommon]].
  destruct (word_runs_lower content tag Hrun) as [Hlow Hchars].
  repeat (split; [assumption|]). split.
  - apply includes_spec. now apply word_runs_substring in Hrun.
  - unfold frequency. lia.
Qed.

Lemma extractContextTags_words_witness :
  (3 < String.length "password")%nat
  /\ ~ In "password" commonWords
  /\ toLowerCase "password" = "password"
  /\ (forall c, In c (list_ascii_of_string "password") -> is_word_char c = true)
  /\ includes (toLowerCase scenario) "password" = true
  /\ 1 <= frequency scenario "password".
Proof.
  apply (extractContextTags_words scenario "password").
  - reflexivity.
  - vm_compute. repeat (try (left; reflexivity); right).
Defined.

(** ** retrieveMemories: the filters and the limit *)

Section Filters.

Context {num : Type} {N : JSNumber num}.

Lemma nonempty_true (s : string) : nonempty s = true <-> s <> "".
Proof.
  destruct s; simpl; split.
  - discriminate.
  - intros H. now destruct H.
  - intros _. discriminate.
  - reflexivity.
Qed.

Lemma some_included_spec (tags l : list string) :
  some_included tags l = true <-> exists tag, In tag tags /\ In tag l.
Proof.
  unfold some_included. rewrite existsb_exists. split.
  - intros [tag [Htag Hin]]. apply existsb_exists in Hin as [x [Hx Heq]].
    apply String.eqb_eq in Heq. subst x. eauto.
  - intros [tag [Htag Hin]]. exists tag. split; [exact Htag|].
    apply existsb_exists. exists tag. split; [exact Hin|].
    apply String.eqb_refl.
Qed.

Lemma passes_meets (query : MemoryQuery num) (r : RankedMemory num) :
  passes query r = true <-> meets query r.
Proof.
  unfold passes, meets.
  assert (H1 : match q_min_importance query with
               | Some mi => truthy mi && ltb (current_importance r) mi
               | None => false
               end = false
               <-> forall mi, q_min_importance query = Some mi ->
                     truthy mi = true -> ltb (current_importance r) mi = false).
  { destruct (q_min_importance query) as [mi|].
    - split.
      + intros H mi' [= <-] Ht. now rewrite Ht in H.
      + intros H. destruct (truthy mi) eqn:Ht; [|reflexivity].
        now rewrite (H mi eq_refl Ht).
    - split; [discriminate | reflexivity]. }
  assert (H2 : match q_emotion query with
               | Some emotion =>
                   nonempty emotion
                   && negb (String.eqb
                              (emotion_name (emotion_flag (memory_of r)))
                              emotion)
               | None => false
               end = false
               <-> forall emotion, q_emotion query = Some emotion ->
                     emotion <> "" ->
                     emotion_name (emotion_flag (memory_of r)) = emotion).
  { destruct (q_emotion query) as [emotion|].
    - split.
      + intros H e' [= <-] Hne. apply nonempty_true in Hne.
        rewrite Hne in H. cbn [andb] in H. apply negb_false_iff in H.
        now apply String.eqb_eq.
      + intros H. destruct (nonempty emotion) eqn:Hne; [|reflexivity].
        apply nonempty_true in Hne. cbn [andb]. apply negb_false_iff.
        apply String.eqb_eq. now apply H.
    - split; [discriminate | reflexivity]. }
  assert (H3 : match q_content query with
               | Some text =>
                   nonempty text
                   && negb (includes (toLowerCase (content (memory_of r)))
                              (toLowerCase text))
               | None => false
               end = false
               <-> forall text, q_content query = Some text -> text <> "" ->
                     includes (toLowerCase (content (memory_of r)))
                       (toLowerCase text) = true).
  { destruct (q_content query) as [text|].
    - split.
      + intros H t' [= <-] Hne. apply nonempty_true in Hne.
        rewrite Hne in H. cbn [andb] in H. now apply negb_false_iff in H.
      + intros H. destruct (nonempty text) eqn:Hne; [|reflexivity].
        apply nonempty_true in Hne. cbn [andb]. apply negb_false_iff.
        now apply H.
    - split; [discriminate | reflexivity]. }
  assert (H4 : match q_context_tags query with
               | Some tags =>
                   negb (some_included tags (context_tags (memory_of r)))
               | None => false
               end = false
               <-> forall tags, q_context_tags query = Some tags ->
                     exists tag,
                       In tag tags /\ In tag (context_tags (memory_of r))).
  { destruct (q_context_tags query) as [tags|].
    - split.
      + intros H t' [= <-]. apply negb_false_iff in H.
        now apply some_included_spec.
      + intros H. apply negb_false_iff. apply some_included_spec.
        now apply H.
    - split; [discriminate | reflexivity]. }
  rewrite <- H1, <- H2, <- H3, <- H4.
  repeat match goal with
         | |- context [if ?c then false else _] => destruct c
         end; intuition discriminate.
Qed.

End Filters.

Lemma slice0_incl {A : Type} (l : list A) (n : Z) (x : A) :
  In x (slice0 l n) -> In x l.
Proof.
  assert (Hfirst : forall k, In x (firstn k l) -> In x l).
  { intros k H. rewrite <- (firstn_skipn k l). apply in_or_app. now left. }
  unfold slice0. destruct (n <? 0); apply Hfirst.
Qed.

Lemma slice0_length {A : Type} (l : list A) (n : Z) :
  (List.length (slice0 l n) <= List.length l)%nat
  /\ (0 <= n -> Z.of_nat (List.length (slice0 l n)) <= n).
Proof.
  unfold slice0. destruct (n <? 0) eqn:Hn; rewrite length_firstn.
  - apply Z.ltb_lt in Hn. split; lia.
  - split; lia.
Qed.

Lemma slice0_all {A : Type} (l : list A) (n : Z) :
  Z.of_nat (List.length l) <= n -> slice0 l n = l.
Proof.
  intros Hn. unfold slice0.
  assert (H : (n <? 0) = false) by (apply Z.ltb_ge; lia).
  rewrite H. apply firstn_all2. lia.
Qed.

Section Ranking.

Context {num : Type} {N : JSNumber num}.

Lemma ranked_perm (now : Z) (query : MemoryQuery num) memories :
  Permutation (ranked now query memories)
    (filter (passes query) (map (with_current_importance now) memories)).
Proof.
  unfold ranked. apply sort_by_perm.
Qed.

Lemma ranked_in (now : Z) (query : MemoryQuery num) memories r :
  In r (ranked now query memories)
  <-> exists m, In m memories /\ r = with_current_importance now m
                /\ meets query r.
Proof.
  split.
  - intros Hr. apply (Permutation_in _ (ranked_perm now query memories)) in Hr.
    apply filter_In in Hr as [Hr Hp]. apply in_map_iff in Hr as [m [<- Hm]].
    exists m. split; [exact Hm|]. split; [reflexivity|].
    now apply passes_meets.
  - intros [m [Hm [-> Hmeets]]].
    apply (Permutation_in _ (Permutation_sym (ranked_perm now query memories))).
    apply filter_In. split; [now apply in_map | now apply passes_meets].
Qed.

End Ranking.

(** X11.  Every entry [retrieveMemories] returns is a stored record with
    its decayed score at the time of the call and meets all four filters of
    the query; there are no more entries than records, at most [limit] of
    them for a positive limit and at most 10 without one; the store is not
    changed. *)
Theorem retrieveMemories_sound {num : Type} {N : JSNumber num}
    (now : Z) (query : MemoryQuery num) (memories : list (MemoryRecord num)) :
  let result := fst (retrieveMemories now query memories) in
  (forall r, In r result ->
     In (memory_of r) memories
     /\ current_importance r = calculateDecay now (memory_of r)
     /\ meets query r)
  /\ (List.length result <= List.length memories)%nat
  /\ (forall n, q_limit query = Some n -> 0 < n ->
        Z.of_nat (List.length result) <= n)
  /\ (q_limit query = None -> (List.length result <= 10)%nat)
  /\ snd (retrieveMemories now query memories) = memories.
Proof.
  intros result.
  assert (Hresult : result
                    = slice0 (ranked now query memories) (limit_or_10 query))
    by reflexivity.
  assert (Hlen : (List.length (ranked now query memories)
                  <= List.length memories)%nat).
  { rewrite (Permutation_length (ranked_perm now query memories)).
    etransitivity; [apply filter_length_le|]. now rewrite length_map. }
  split; [|split; [|split; [|split]]].
  - intros r Hr. rewrite Hresult in Hr. apply slice0_incl in Hr.
    apply ranked_in in Hr as [m [Hm [-> Hmeets]]].
    split; [exact Hm|]. split; [reflexivity | exact Hmeets].
  - rewrite Hresult.
    pose proof (slice0_length (ranked now query memories) (limit_or_10 query))
      as [H _]. lia.
  - intros n Hq Hn. rewrite Hresult. unfold limit_or_10. rewrite Hq.
    assert (Hz : (n =? 0) = false) by (apply Z.eqb_neq; lia). rewrite Hz.
    apply slice0_length. lia.
  - intros Hq. rewrite Hresult. unfold limit_or_10. rewrite Hq.
    pose proof (slice0_length (ranked now query memories) 10) as [_ H].
    specialize (H ltac:(lia)). lia.
  - reflexivity.
Qed.

Lemma retrieveMemories_sound_witness :
  Z.of_nat
    (List.length
       (fst (retrieveMemories (N := binary64) 1700000500000 (unfiltered 1)
               sample_store)))
  <= 1.
Proof.
  apply (proj1 (proj2 (proj2 (retrieveMemories_sound (N := binary64)
                                1700000500000 (unfiltered 1) sample_store)))
           1 eq_refl).
  lia.
Defined.

(** X12.  When the limit is not below the size of the store, nothing
    is cut off: every stored record that meets the query is returned, and the
    result is a rearrangement of the entries of [getAllMemories] that pass
    the filter. *)
Theorem retrieveMemories_complete {num : Type} {N : JSNumber num}
    (now : Z) (query : MemoryQuery num) (memories : list (MemoryRecord num)) :
  Z.of_nat (List.length memories) <= limit_or_10 query ->
  (forall m, In m memories ->
     meets query (with_current_importance now m) ->
     In (with_current_importance now m)
        (fst (retrieveMemories now query memories)))
  /\ Permutation (fst (retrieveMemories now query memories))
       (filter (passes query) (fst (getAllMemories now memories))).
Proof.
  intros Hlimit.
  assert (Hresult : fst (retrieveMemories now query memories)
                    = ranked now query memories).
  { change (fst (retrieveMemories now query memories))
      with (slice0 (ranked now query memories) (limit_or_10 query)).
    apply slice0_all.
    rewrite (Permutation_length (ranked_perm now query memories)).
    pose proof (filter_length_le (passes query)
                  (map (with_current_importance now) memories)) as H.
    rewrite length_map in H. lia. }
  rewrite Hresult. split.
  - intros m Hm Hmeets. apply ranked_in. eauto.
  - apply ranked_perm.
Qed.

Lemma retrieveMemories_complete_witness :
  Permutation
    (fst (retrieveMemories (N := binary64) 1700000500000 (unfiltered 10)
            sample_store))
    (filter (passes (unfiltered 10))
       (fst (getAllMemories 1700000500000 sample_store))).
Proof.
  refine (proj2 (retrieveMemories_complete (N := binary64) 1700000500000
                   (unfiltered 10) sample_store _)).
  vm_compute. discriminate.
Defined.

(** X13.  Falsy filter values switch a filter off, except for the
    tag list: an empty tag list matches no record, while an empty text, an
    empty emotion and a falsy minimum (0 or NaN) behave as absent. *)
Theorem retrieveMemories_falsy_filters {num : Type} {N : JSNumber num}
    (now : Z) (memories : list (MemoryRecord num)) :
  (forall text emotion min_importance limit,
      fst (retrieveMemories now
             (mkQuery text emotion (Some []) min_importance limit) memories)
      = [])
  /\ (forall emotion tags min_importance limit,
        retrieveMemories now
          (mkQuery (Some "") emotion tags min_importance limit) memories
        = retrieveMemories now
            (mkQuery None emotion tags min_importance limit) memories)
  /\ (forall text tags min_importance limit,
        retrieveMemories now
          (mkQuery text (Some "") tags min_importance limit) memories
        = retrieveMemories now
            (mkQuery text None tags min_importance limit) memories)
  /\ (forall text emotion tags min_importance limit,
        truthy min_importance = false ->
        retrieveMemories now
          (mkQuery text emotion tags (Some min_importance) limit) memories
        = retrieveMemories now
            (mkQuery text emotion tags None limit) memories).
Proof.
  assert (Hext : forall q q' : MemoryQuery num,
             (forall r, passes q r = passes q' r) ->
             q_limit q = q_limit q' ->
             retrieveMemories now q memories = retrieveMemories now q' memories).
  { intros q q' Hp Hl.
    unfold retrieveMemories, bind, read, ret, ranked, limit_or_10.
    rewrite Hl. now rewrite (filter_ext _ _ Hp). }
  split; [|split; [|split]].
  - intros text emotion min_importance limit.
    change (slice0
              (ranked now (mkQuery text emotion (Some []) min_importance limit)
                 memories)
              (limit_or_10 (mkQuery text emotion (Some []) min_importance limit))
            = []).
    assert (Hempty : ranked now
                       (mkQuery text emotion (Some []) min_importance limit)
                       memories = []).
    { destruct (ranked now _ memories) as [|r rest] eqn:Hr; [reflexivity|].
      assert (Hin : In r (ranked now
                            (mkQuery text emotion (Some []) min_importance limit)
                            memories)) by (rewrite Hr; now left).
      apply ranked_in in Hin as [m [_ [_ (_ & _ & _ & Htags)]]].
      destruct (Htags [] eq_refl) as [tag [[] _]]. }
    rewrite Hempty. unfold slice0. destruct (_ <? 0); apply firstn_nil.
  - intros. apply Hext; [|reflexivity]. intros r. reflexivity.
  - intros. apply Hext; [|reflexivity]. intros r. reflexivity.
  - intros text emotion tags min_importance limit Hfalsy.
    apply Hext; [|reflexivity]. intros r. unfold passes.
    cbn [q_min_importance]. now rewrite Hfalsy.
Qed.

Lemma retrieveMemories_falsy_filters_witness :
  retrieveMemories (N := binary64) 1700000500000
    (mkQuery None None None (Some (lit 0)) None) sample_store
  = retrieveMemories (N := binary64) 1700000500000
      (mkQuery None None None None None) sample_store.
Proof.
  apply (proj2 (proj2 (proj2 (retrieveMemories_falsy_filters (N := binary64)
                                1700000500000 sample_store)))).
  vm_compute. reflexivity.
Defined.

(** ** accessMemory: what an access leaves alone *)

Section Frame.

Context {num : Type} {N : JSNumber num}.

Lemma update_first_frame (p : MemoryRecord num -> bool) now memories :
  match update_first p (strengthen now) memories with
  | Some (found, memories') =>
      Forall2 (fun m m' => same_outside_access m m' /\ (m' = m \/ p m = true))
        memories memories'
  | None => True
  end.
Proof.
  induction memories as [|m rest IH]; simpl.
  - exact I.
  - destruct (p m) eqn:Hp.
    + constructor.
      * split; [repeat split | now right].
      * clear. induction rest; constructor; auto.
        split; [repeat split | now left].
    + destruct (update_first p (strengthen now) rest) as [[found rest']|];
        [|exact I].
      constructor; [|exact IH].
      split; [repeat split | now left].
Qed.

End Frame.

(** X14.  [accessMemory] keeps the store's length and its ids in place;
    it assigns to the usage count, the access time and the score only, and
    only of a record that carries the requested id. *)
Theorem accessMemory_frame {num : Type} {N : JSNumber num}
    (now : Z) (memoryId : string) (memories : list (MemoryRecord num)) :
  let memories' := snd (accessMemory now memoryId memories) in
  List.length memories' = List.length memories
  /\ map id memories' = map id memories
  /\ Forall2
       (fun m m' => same_outside_access m m' /\ (m' = m \/ id m = memoryId))
       memories memories'.
Proof.
  intros memories'.
  assert (H : Forall2
                (fun m m' =>
                   same_outside_access m m' /\ (m' = m \/ id m = memoryId))
                memories memories').
  { unfold memories', accessMemory, find_and_update.
    pose proof (update_first_frame (fun m => String.eqb (id m) memoryId) now
                  memories) as Hupd.
    destruct (update_first _ _ memories) as [[found rest']|]; cbn [snd].
    - revert Hupd. apply Forall2_impl.
      intros m m' [Hsame [Heq | Hid]]; split; auto.
      right. now apply String.eqb_eq.
    - clear. induction memories; constructor; auto.
      split; [repeat split | now left]. }
  split; [|split; [|exact H]].
  - symmetry. exact (Forall2_length H).
  - clear -H. induction H as [|m m' l l' [[Hid _] _] _ IH]; simpl; congruence.
Qed.

(** X15.  A memory created with a fresh id is found by that id: the
    access returns the last record of the store, used twice, accessed at the
    time of the access and created at the time of creation.  When an older
    record carries the same id, that one is accessed and the new record is
    left as it was. *)
Theorem createMemory_then_accessMemory {num : Type} {N : JSNumber num}
    (now later : Z) (rnd title' content' : string) emotion sourceType writeMethod
    (memories : list (MemoryRecord num)) :
  let created :=
    fst (createMemory now rnd title' content' emotion sourceType writeMethod
           memories) in
  let memories' :=
    snd (createMemory now rnd title' content' emotion sourceType writeMethod
           memories) in
  (~ In (id created) (map id memories) ->
   exists r,
     accessMemory later (id created) memories' = (Some r, memories ++ [r])
     /\ id r = id created
     /\ usage_count r = 2
     /\ last_accessed r = later
     /\ date_created r = now)
  /\ (In (id created) (map id memories) ->
      accessMemory later (id created) memories'
      = (fst (accessMemory later (id created) memories),
         snd (accessMemory later (id created) memories) ++ [created])).
Proof.
  intros created memories'.
  assert (Hstore : memories' = memories ++ [created]) by reflexivity.
  split.
  - intros Hfresh. exists (strengthen later created).
    rewrite Hstore. split; [|repeat split].
    now apply accessMemory_first.
  - intros Hin. rewrite Hstore.
    destruct (first_with_id _ _ Hin) as [pre [m [post [-> [Hpre Hm]]]]].
    rewrite <- app_assoc. cbn [app].
    rewrite !accessMemory_first by assumption.
    cbn [fst snd]. now rewrite <- app_assoc.
Qed.

Lemma createMemory_then_accessMemory_witness :
  exists r,
    accessMemory (N := binary64) 1700000500000 scenario_id [scenario_record]
    = (Some r, [r])
    /\ id r = scenario_id
    /\ usage_count r = 2
    /\ last_accessed r = 1700000500000
    /\ date_created r = 1700000000000.
Proof.
  apply (proj1 (createMemory_then_accessMemory (N := binary64) 1700000000000
                  1700000500000 "k3j9x0q2a" "door code" scenario
                  (Some anxious) None None [])).
  intros [].
Defined.

(** ** dreamStateProcessing without frequently used records *)

(** X16.  On a store in which no record was used more than three times
    a consolidation pass changes no score, and a second pass changes nothing
    at all. *)
Theorem dreamStateProcessing_settles {num : Type} {N : JSNumber num}
    (memories : list (MemoryRecord num)) :
  Forall (fun m => usage_count m <= 3) memories ->
  snd (dreamStateProcessing (snd (dreamStateProcessing memories)))
  = snd (dreamStateProcessing memories)
  /\ Forall2 (fun m m' => importance_score m' = importance_score m)
       memories (snd (dreamStateProcessing memories)).
Proof.
  intros Hlow. rewrite !dreamStateProcessing_map. cbn [snd].
  split.
  - rewrite map_map. apply map_ext_in. intros m Hm.
    rewrite Forall_forall in Hlow. specialize (Hlow m Hm).
    unfold reinforce. cbn [usage_count mark_processed].
    assert (H3 : (3 <? usage_count m) = false) by (apply Z.ltb_ge; lia).
    rewrite H3. cbn [usage_count]. now rewrite H3.
  - induction Hlow as [|m rest Hm _ IH]; simpl; constructor; auto.
    unfold reinforce.
    assert (H3 : (3 <? usage_count m) = false) by (apply Z.ltb_ge; lia).
    now rewrite H3.
Qed.

Lemma dreamStateProcessing_settles_witness :
  snd (dreamStateProcessing
         (snd (dreamStateProcessing (sample_store (N := binary64)))))
  = snd (dreamStateProcessing (sample_store (N := binary64)))
  /\ Forall2 (fun m m' => importance_score m' = importance_score m)
       (sample_store (N := binary64))
       (snd (dreamStateProcessing (sample_store (N := binary64)))).
Proof.
  apply (dreamStateProcessing_settles (N := binary64)).
  repeat constructor; vm_compute; discriminate.
Defined.

(** ** getMemoryStats: the counts *)

Lemma fold_left_map {A B C : Type} (f : C -> B -> C) (g : A -> B)
    (l : list A) (c : C) :
  fold_left (fun acc x => f acc (g x)) l c = fold_left f (map g l) c.
Proof.
  revert c. induction l as [|x l IH]; intros c; simpl; [reflexivity | apply IH].
Qed.

Lemma count_occ_map_filter {A : Type} (g : A -> string) (l : list A)
    (name : string) :
  count_occ string_dec (map g l) name
  = List.length (filter (fun x => String.eqb (g x) name) l).
Proof.
  induction l as [|x l IH]; simpl; [reflexivity|].
  destruct (string_dec (g x) name) as [-> | Hne].
  - rewrite String.eqb_refl. simpl. now rewrite IH.
  - destruct (String.eqb_spec (g x) name); [contradiction | exact IH].
Qed.

Lemma bump_total (word : string) (o : list (string * Z)) :
  total_count (bump word o) = total_count o + 1.
Proof.
  induction o as [|[k n] rest IH]; simpl; [lia|].
  destruct (String.eqb k word); simpl; [|rewrite IH]; lia.
Qed.

Lemma tally_total (words : list string) (o : list (string * Z)) :
  total_count (tally words o) = total_count o + Z.of_nat (List.length words).
Proof.
  unfold tally. revert o. induction words as [|w ws IH]; intros o.
  - simpl. lia.
  - cbn [fold_left List.length]. rewrite IH, bump_total. lia.
Qed.

Lemma bump_positive (word : string) (o : list (string * Z)) :
  Forall (fun e => 1 <= snd e) o -> Forall (fun e => 1 <= snd e) (bump word o).
Proof.
  induction 1 as [|[k n] rest Hn Hrest IH]; simpl.
  - constructor; [simpl; lia | constructor].
  - simpl in Hn. destruct (String.eqb k word); constructor; simpl;
      try lia; assumption.
Qed.

Lemma tally_positive (words : list string) (o : list (string * Z)) :
  Forall (fun e => 1 <= snd e) o -> Forall (fun e => 1 <= snd e) (tally words o).
Proof.
  unfold tally. revert o. induction words as [|w ws IH]; intros o Ho; simpl.
  - exact Ho.
  - apply IH. now apply bump_positive.
Qed.

Lemma emotionalDist_tally {num : Type} {N : JSNumber num} now
    (memories : list (MemoryRecord num)) :
  emotional_distribution (fst (getMemoryStats now memories))
  = tally (map (fun m => emotion_name (emotion_flag m)) memories) [].
Proof.
  unfold getMemoryStats, bind, read, ret. cbn [fst emotional_distribution].
  unfold tally.
  exact (fold_left_map (fun acc word => bump word acc)
           (fun m => emotion_name (emotion_flag m)) memories []).
Qed.

(** X17.  The counts of [getMemoryStats]: the total is the size of the
    store, every record is either active or decayed, the recent ones are
    among them and are all of them when every access lies less than a day
    back; the store is not changed. *)
Theorem getMemoryStats_counts {num : Type} {N : JSNumber num}
    (now : Z) (memories : list (MemoryRecord num)) :
  let stats := fst (getMemoryStats now memories) in
  total_memories stats = Z.of_nat (List.length memories)
  /\ active_memories stats + decayed_memories stats = total_memories stats
  /\ 0 <= active_memories stats <= total_memories stats
  /\ decayed_memories stats
     = Z.of_nat
         (List.length
            (filter (fun m => negb (ltb (lit 0.1) (calculateDecay now m)))
               memories))
  /\ 0 <= recent_activity stats <= total_memories stats
  /\ (Forall (fun m => now - 86400000 < last_accessed m) memories ->
      recent_activity stats = total_memories stats)
  /\ snd (getMemoryStats now memories) = memories.
Proof.
  unfold getMemoryStats, bind, read, ret.
  cbn [fst snd total_memories active_memories decayed_memories recent_activity].
  pose proof (filter_length_le (fun m => gtb (calculateDecay now m) (lit 0.1))
                memories) as Hactive.
  pose proof (filter_length_le
                (fun m => now - last_accessed m <? 24 * 60 * 60 * 1000)
                memories) as Hrecent.
  pose proof (filter_length (fun m => gtb (calculateDecay now m) (lit 0.1))
                memories) as Hsplit.
  split; [reflexivity|]. split; [lia|]. split; [lia|]. split; [|split; [lia|split]].
  - unfold gtb in *. lia.
  - intros Hall. f_equal. f_equal. apply forallb_filter_id.
    apply forallb_forall. rewrite Forall_forall in Hall.
    intros m Hm. apply Z.ltb_lt. specialize (Hall m Hm). lia.
  - reflexivity.
Qed.

Lemma getMemoryStats_counts_witness :
  recent_activity (fst (getMemoryStats (N := binary64) 1700000500000 sample_store))
  = total_memories (fst (getMemoryStats (N := binary64) 1700000500000 sample_store)).
Proof.
  apply (proj1 (proj2 (proj2 (proj2 (proj2 (proj2
           (getMemoryStats_counts (N := binary64) 1700000500000
              sample_store))))))).
  repeat constructor.
Defined.

(** X18.  The emotional distribution counts the records of each
    emotion: its keys are the emotions that occur, each once and at most
    seven, each with the number of records carrying it, and the counts add up
    to the size of the store. *)
Theorem getMemoryStats_distribution {num : Type} {N : JSNumber num}
    (now : Z) (memories : list (MemoryRecord num)) :
  let distribution :=
    emotional_distribution (fst (getMemoryStats now memories)) in
  (forall name,
      count_at name distribution
      = Z.of_nat (List.length (with_emotion name memories)))
  /\ NoDup (map fst distribution)
  /\ (forall name,
        In name (map fst distribution)
        <-> exists m, In m memories /\ emotion_name (emotion_flag m) = name)
  /\ (forall name n, In (name, n) distribution ->
        n = Z.of_nat (List.length (with_emotion name memories)) /\ 1 <= n)
  /\ total_count distribution = Z.of_nat (List.length memories)
  /\ (List.length distribution <= 7)%nat.
Proof.
  cbv zeta. rewrite emotionalDist_tally.
  set (names := map (fun m : MemoryRecord num => emotion_name (emotion_flag m))
                  memories).
  assert (Hcount : forall name,
             count_at name (tally names [])
             = Z.of_nat (List.length (with_emotion name memories))).
  { intros name. rewrite tally_count. simpl. unfold names, with_emotion.
    now rewrite count_occ_map_filter. }
  assert (Hnd : NoDup (map fst (tally names []))).
  { apply tally_NoDup. constructor. }
  assert (Hkeys : forall name,
             In name (map fst (tally names []))
             <-> exists m, In m memories /\ emotion_name (emotion_flag m) = name).
  { intros name. rewrite tally_keys. unfold names. rewrite in_map_iff. simpl.
    split.
    - intros [[m [Hname Hm]] | []]. eauto.
    - intros [m [Hm Hname]]. left. eauto. }
  split; [exact Hcount|]. split; [exact Hnd|]. split; [exact Hkeys|].
  split; [|split].
  - intros name n Hin. split.
    + rewrite <- Hcount. symmetry. now apply count_at_In.
    + pose proof (tally_positive names [] (Forall_nil _)) as Hpos.
      rewrite Forall_forall in Hpos. exact (Hpos _ Hin).
  - rewrite tally_total. simpl. unfold names. now rewrite length_map.
  - rewrite <- (length_map fst).
    apply (NoDup_incl_length Hnd
             (l' := map emotion_name
                      [happy; sad; angry; neutral; excited; anxious; curious])).
    intros name Hin. apply Hkeys in Hin as [m [_ <-]].
    apply in_map. destruct (emotion_flag m); simpl; tauto.
Qed.

Lemma getMemoryStats_distribution_witness :
  1 = Z.of_nat (List.length (with_emotion "anxious" (sample_store (N := binary64))))
  /\ 1 <= 1.
Proof.
  apply (proj1 (proj2 (proj2 (proj2
           (getMemoryStats_distribution (N := binary64) 1700000500000
              sample_store))))
           "anxious" 1).
  vm_compute. left. reflexivity.
Defined.

(** ** The fields no method assigns to *)

(** X19.  In every store a manager can reach, each record still has
    the user id, the absent embedding, the decay rate 0.05, the tags of its
    content and an id starting with mem_ that [createMemory] gave it, was
    used at least once, and was last accessed at its creation if it was used
    once. *)
Theorem reachable_as_created {num : Type} {N : JSNumber num}
    (memories : list (MemoryRecord num)) :
  reachable memories -> Forall as_created memories.
Proof.
  induction 1 as [|memories memories' _ IH Hcall]; [constructor|].
  destruct Hcall; try exact IH.
  - unfold createMemory, bind, push, ret. cbn [snd].
    apply Forall_app. split; [exact IH|].
    constructor; [|constructor].
    unfold as_created. cbn [user_id embedding decay_rate context_tags content id
                              usage_count last_accessed date_created].
    repeat split; try reflexivity; try lia.
    simpl. now destruct (String.append (decimal now) _).
  - apply (accessMemory_ok as_created); [|exact IH].
    intros now' m (Hu & He & Hd & Ht & Hi & Hc & Hl).
    unfold as_created, strengthen. cbn.
    repeat split; try assumption; lia.
  - rewrite dreamStateProcessing_map. cbn [snd].
    apply Forall_map. revert IH. apply Forall_impl.
    intros m (Hu & He & Hd & Ht & Hi & Hc & Hl).
    unfold as_created, mark_processed, reinforce.
    destruct (3 <? usage_count m); cbn; repeat split; assumption.
Qed.

Lemma reachable_as_created_witness :
  Forall as_created (sample_store (N := binary64)).
Proof.
  apply reachable_as_created. exact sample_store_reachable.
Defined.

(** ** retrieveMemories: ties and entries already in order *)

Lemma sort_by_sorted_id {A : Type} (after : A -> A -> bool) (l : list A) :
  Sorted (fun x y => after x y = false) l -> sort_by after l = l.
Proof.
  induction 1 as [|x l Hs IH Hhd]; simpl; [reflexivity|].
  rewrite IH. destruct Hhd as [|y l' Hxy]; simpl; [reflexivity|].
  now rewrite Hxy.
Qed.

(** X20.  When the comparator finds the entries that pass the filter
    already in order, equal scores included, the ranking keeps the order of
    the store. *)
Theorem retrieveMemories_keeps_order {num : Type} {N : JSNumber num}
    (now : Z) (query : MemoryQuery num)
    (memories : list (MemoryRecord num)) :
  Sorted (fun r r' => less_important r r' = false)
    (filter (passes query) (fst (getAllMemories now memories))) ->
  fst (retrieveMemories now query memories)
  = slice0 (filter (passes query) (fst (getAllMemories now memories)))
      (limit_or_10 query).
Proof.
  intros Hsorted.
  change (fst (retrieveMemories now query memories))
    with (slice0 (ranked now query memories) (limit_or_10 query)).
  unfold ranked. f_equal. now apply sort_by_sorted_id.
Qed.

Lemma retrieveMemories_keeps_order_witness :
  fst (retrieveMemories (N := binary64) 1700000500000 (unfiltered 10)
         sample_store)
  = slice0
      (filter (passes (unfiltered 10))
         (fst (getAllMemories 1700000500000 sample_store)))
      (limit_or_10 (unfiltered (num := float) 10)).
Proof.
  apply (retrieveMemories_keeps_order (N := binary64)).
  repeat constructor.
Defined.

(** ** createMemory followed by a query or by the statistics *)

(** X21.  A new memory whose counted words name no inherited member
    is found by each of its own tags, given as tag filter and as text filter
    together with the memory's emotion, as long as the limit exceeds the size
    of the store before the creation. *)
Theorem createMemory_found_by_tag {num : Type} {N : JSNumber num}
    (now later : Z) (rnd title' content' : string)
    emotion sourceType writeMethod (memories : list (MemoryRecord num))
    (tag : string) (limit : Z) :
  let created :=
    fst (createMemory now rnd title' content' emotion sourceType writeMethod
           memories) in
  let memories' :=
    snd (createMemory now rnd title' content' emotion sourceType writeMethod
           memories) in
  plain_words content' ->
  In tag (context_tags created) ->
  Z.of_nat (List.length memories) < limit ->
  In (with_current_importance later created)
     (fst (retrieveMemories later
             (mkQuery (Some tag) (Some (emotion_name (emotion_flag created)))
                (Some [tag]) None (Some limit))
             memories')).
Proof.
  intros created memories' _ Htag Hlimit.
  set (query := mkQuery (Some tag) (Some (emotion_name (emotion_flag created)))
                  (Some [tag]) None (Some limit)).
  assert (Hstore : memories' = memories ++ [created]) by reflexivity.
  assert (Hl : limit_or_10 query = limit).
  { unfold limit_or_10, query. cbn [q_limit].
    destruct (Z.eqb_spec limit 0); [lia | reflexivity]. }
  change (fst (retrieveMemories later query memories'))
    with (slice0 (ranked later query memories') (limit_or_10 query)).
  rewrite slice0_all.
  - apply ranked_in. exists created. split; [|split; [reflexivity|]].
    + rewrite Hstore. apply in_or_app. right. now left.
    + unfold meets, query.
      cbn [q_min_importance q_emotion q_content q_context_tags memory_of
             with_current_importance].
      split; [discriminate|]. split; [|split].
      * now intros e [= <-] _.
      * intros text [= <-] _.
        change (context_tags created) with (extractContextTags content') in Htag.
        change (content created) with content'.
        apply tag_kept, kept_words_spec in Htag as [Hrun _].
        rewrite (proj1 (word_runs_lower content' tag Hrun)).
        apply includes_spec. now apply word_runs_substring in Hrun.
      * intros tags [= <-]. exists tag. split; [now left | exact Htag].
  - rewrite (Permutation_length (ranked_perm later query memories')).
    pose proof (filter_length_le (passes query)
                  (map (with_current_importance later) memories')) as H.
    assert (Hlen : List.length memories' = S (List.length memories)).
    { rewrite Hstore, length_app. simpl. lia. }
    rewrite length_map, Hlen in H. rewrite Hl. lia.
Qed.

Lemma createMemory_found_by_tag_witness :
  In (with_current_importance 1700000500000 (scenario_record (N := binary64)))
     (fst (retrieveMemories 1700000500000
             (mkQuery (Some "password") (Some "anxious") (Some ["password"])
                None (Some 1))
             [scenario_record])).
Proof.
  apply (createMemory_found_by_tag (N := binary64) 1700000000000 1700000500000
           "k3j9x0q2a" "door code" scenario (Some anxious) None None []
           "password" 1).
  - reflexivity.
  - vm_compute. repeat (try (left; reflexivity); right).
  - reflexivity.
Defined.

(** X22.  What [createMemory] adds to the statistics: one record, that
    is active or decayed, one count of its emotion and of no other, and one
    recent record exactly when the statistics are taken less than a day
    after the creation. *)
Theorem createMemory_getMemoryStats {num : Type} {N : JSNumber num}
    (now later : Z) (rnd title' content' : string)
    emotion sourceType writeMethod (memories : list (MemoryRecord num)) :
  let created :=
    fst (createMemory now rnd title' content' emotion sourceType writeMethod
           memories) in
  let before := fst (getMemoryStats later memories) in
  let after :=
    fst (getMemoryStats later
           (snd (createMemory now rnd title' content' emotion sourceType
                   writeMethod memories))) in
  total_memories after = total_memories before + 1
  /\ active_memories after + decayed_memories after
     = active_memories before + decayed_memories before + 1
  /\ (forall name,
        count_at name (emotional_distribution after)
        = count_at name (emotional_distribution before)
          + (if String.eqb (emotion_name (or_default neutral emotion)) name
             then 1 else 0))
  /\ (later - now < 86400000 ->
      recent_activity after = recent_activity before + 1)
  /\ (86400000 <= later - now ->
      recent_activity after = recent_activity before).
Proof.
  intros created before after.
  assert (Hstore : snd (createMemory now rnd title' content' emotion sourceType
                          writeMethod memories) = memories ++ [created])
    by reflexivity.
  unfold after, before. rewrite Hstore.
  split; [|split; [|split; [|split]]].
  - unfold getMemoryStats, bind, read, ret. cbn [fst total_memories].
    rewrite length_app. simpl. lia.
  - unfold getMemoryStats, bind, read, ret.
    cbn [fst active_memories decayed_memories].
    rewrite length_app. simpl. lia.
  - intros name. rewrite !emotionalDist_tally, map_app, !tally_count.
    rewrite count_occ_app. cbn [map count_occ].
    change (emotion_flag created) with (or_default neutral emotion).
    destruct (string_dec (emotion_name (or_default neutral emotion)) name)
      as [-> | Hne].
    + rewrite String.eqb_refl. simpl. lia.
    + destruct (String.eqb_spec (emotion_name (or_default neutral emotion)) name);
        [contradiction | simpl; lia].
  - intros Hrecent. unfold getMemoryStats, bind, read, ret.
    cbn [fst recent_activity]. rewrite filter_app, length_app.
    cbn [filter]. change (last_accessed created) with now.
    assert (H : (later - now <? 24 * 60 * 60 * 1000) = true)
      by (apply Z.ltb_lt; lia).
    rewrite H. simpl List.length. lia.
  - intros Hold. unfold getMemoryStats, bind, read, ret.
    cbn [fst recent_activity]. rewrite filter_app, length_app.
    cbn [filter]. change (last_accessed created) with now.
    assert (H : (later - now <? 24 * 60 * 60 * 1000) = false)
      by (apply Z.ltb_ge; lia).
    rewrite H. simpl List.length. lia.
Qed.

Lemma createMemory_getMemoryStats_witness :
  recent_activity
    (fst (getMemoryStats (N := binary64) 1700000500000
            (snd (createMemory 1700000000001 "p0o9i8u7y" "" "" None None None
                    [scenario_record]))))
  = recent_activity
      (fst (getMemoryStats (N := binary64) 1700000500000 [scenario_record]))
    + 1.
Proof.
  apply (proj1 (proj2 (proj2 (proj2
           (createMemory_getMemoryStats (N := binary64) 1700000000001
              1700000500000 "p0o9i8u7y" "" "" None None None
              [scenario_record]))))).
  reflexivity.
Defined.

(** ** getMemoryStats: the average, in exact arithmetic *)

Section ExactStatistics.

Local Open Scope Q_scope.










End ExactStatistics.

(** ** dreamStateProcessing, repeated *)

Section Repeated.



Local Open Scope Q_scope.




End Repeated.
